(** * csv_to_text: the row-to-file naming engine of [app.py] and [txt_to_csv.py]

    Shallow embedding of the two Streamlit variants of the converter:
    - [app.py]        ("V1"): first string cell as text, optional [filename]
                      column, [ensure_unique] with a set of used names;
    - [txt_to_csv.py] ("V2"): text mode, optional filename column, prefix and
                      suffix, [ensure_txt_suffix], a [Counter] keyed by stem.

    Python [str] values are sequences of Unicode code points; they are
    modelled as [list N]. Whitespace is CPython's [Py_UNICODE_ISSPACE], the
    predicate used both by [str.strip()] and by the regular expression class
    [\s] of a [str] pattern. *)

From Stdlib Require Import Strings.String Strings.Ascii.
From Stdlib Require Import List NArith Arith Lia Bool.
From Stdlib Require Import Numbers.DecimalNat.
Import ListNotations.

(* ------------------------------------------------------------------ *)
(** ** Code points and strings *)

Definition str := list N.

Definition str_eqb (a b : str) : bool :=
  if list_eq_dec N.eq_dec a b then true else false.

(** Python's [x in used] on a set of strings. *)
Definition mem (s : str) (l : list str) : bool := existsb (str_eqb s) l.

(** ASCII literals written as Rocq strings. *)
Definition lit (s : string) : str := map N_of_ascii (list_ascii_of_string s).

Definition c_space : N := 32.
Definition c_under : N := 95.
Definition c_dot : N := 46.
Definition c_slash : N := 47.

(** [Py_UNICODE_ISSPACE]: the code points for which [str.isspace()] holds. *)
Definition isspace (c : N) : bool :=
  ((9 <=? c) && (c <=? 13))%N || ((28 <=? c) && (c <=? 32))%N
  || (c =? 133)%N || (c =? 160)%N || (c =? 5760)%N
  || ((8192 <=? c) && (c <=? 8202))%N
  || (c =? 8232)%N || (c =? 8233)%N || (c =? 8239)%N || (c =? 8287)%N
  || (c =? 12288)%N.

Fixpoint drop_ws (s : str) : str :=
  match s with
  | [] => []
  | c :: t => if isspace c then drop_ws t else s
  end.

(** [s.strip()] *)
Definition strip (s : str) : str := rev (drop_ws (rev (drop_ws s))).

(** [re.sub(r"\s+", " ", s)]: every maximal run of whitespace becomes one
    space; the flag says whether the scan is inside a run. *)
Fixpoint collapse (in_run : bool) (s : str) : str :=
  match s with
  | [] => []
  | c :: t =>
      if isspace c then
        if in_run then collapse true t else c_space :: collapse true t
      else c :: collapse false t
  end.

Definition untitled : str := lit "untitled".

(* ------------------------------------------------------------------ *)
(** ** [sanitize_filename] of [app.py] (V1) *)

(** The class of backslash, slash, colon, star, question mark, double
    quote, angle brackets, bar, CR, LF and TAB. *)
Definition forbidden1 (c : N) : bool :=
  existsb (N.eqb c) [92; 47; 58; 42; 63; 34; 60; 62; 124; 13; 10; 9]%N.

Definition repl1 (c : N) : N := if forbidden1 c then c_under else c.

Definition sanitize1 (name : str) : str :=
  let name := strip name in
  let name := map repl1 name in
  let name := collapse false name in
  match name with [] => untitled | _ => name end.

(* ------------------------------------------------------------------ *)
(** ** [sanitize_filename] of [txt_to_csv.py] (V2) *)

(** Membership in [[A-Za-z0-9가-힣 _\-\.\(\)\[\]]]; [INVALID_FILENAME_CHARS]
    is its complement. *)
Definition allowed2 (c : N) : bool :=
  ((65 <=? c) && (c <=? 90))%N || ((97 <=? c) && (c <=? 122))%N
  || ((48 <=? c) && (c <=? 57))%N || ((44032 <=? c) && (c <=? 55203))%N
  || existsb (N.eqb c) [32; 95; 45; 46; 40; 41; 91; 93]%N.

Definition repl2 (c : N) : N := if allowed2 c then c else c_under.

Definition sanitize2 (name : str) : str :=
  let name := strip name in
  let name := collapse false name in
  let name := map repl2 name in
  match name with [] => untitled | _ => name end.


(* ------------------------------------------------------------------ *)
(** ** Decimal rendering of integers ([f"{i}"]) *)

Fixpoint uint_codes (d : Decimal.uint) : str :=
  match d with
  | Decimal.Nil => []
  | Decimal.D0 d => 48%N :: uint_codes d
  | Decimal.D1 d => 49%N :: uint_codes d
  | Decimal.D2 d => 50%N :: uint_codes d
  | Decimal.D3 d => 51%N :: uint_codes d
  | Decimal.D4 d => 52%N :: uint_codes d
  | Decimal.D5 d => 53%N :: uint_codes d
  | Decimal.D6 d => 54%N :: uint_codes d
  | Decimal.D7 d => 55%N :: uint_codes d
  | Decimal.D8 d => 56%N :: uint_codes d
  | Decimal.D9 d => 57%N :: uint_codes d
  end.

Definition show_nat (n : nat) : str := uint_codes (Nat.to_uint n).

(* ------------------------------------------------------------------ *)
(** ** [os.path.splitext] (posixpath) *)

Fixpoint split_first (c : N) (s : str) : option (str * str) :=
  match s with
  | [] => None
  | x :: xs =>
      if (x =? c)%N then Some ([], xs)
      else match split_first c xs with
           | Some (a, b) => Some (x :: a, b)
           | None => None
           end
  end.

(** [s.rfind(c)] as a split: [Some (before, after)] around the last [c]. *)
Definition split_last (c : N) (s : str) : option (str * str) :=
  match split_first c (rev s) with
  | Some (a, b) => Some (rev b, rev a)
  | None => None
  end.

(** [genericpath._splitext(p, '/', None, '.')]: the extension starts at the
    last dot after the last separator, provided the base name has a
    character other than a dot before it. *)
Definition splitext (p : str) : str * str :=
  let '(head, tail) :=
    match split_last c_slash p with
    | Some (h, t) => (h ++ [c_slash], t)
    | None => ([], p)
    end in
  match split_last c_dot tail with
  | Some (t1, t2) =>
      if existsb (fun c => negb (c =? c_dot)%N) t1
      then (head ++ t1, c_dot :: t2) else (p, [])
  | None => (p, [])
  end.

(** [f"{base}_{i}{ext}"] *)
Definition numbered (base ext : str) (i : nat) : str :=
  base ++ c_under :: show_nat i ++ ext.

(* ------------------------------------------------------------------ *)
(** ** [ensure_unique] of [app.py] (V1)

    [used] is the Python set, as the list of its elements. The [while True]
    loop is [probe]; its fuel counts loop iterations, and
    [ensure_unique_terminates] shows that [length used + 1] iterations always
    reach a free candidate, so the [None] branch below is never taken. *)

Fixpoint probe (base ext : str) (used : list str) (fuel i : nat) : option str :=
  match fuel with
  | O => None
  | S fuel' =>
      let candidate := numbered base ext i in
      if negb (mem candidate used) then Some candidate
      else probe base ext used fuel' (S i)
  end.

(** Returns the chosen name and the set after [used.add]. *)
Definition ensure_unique (name : str) (used : list str) : str * list str :=
  let '(base, ext) := splitext name in
  if negb (mem name used) then (name, name :: used)
  else match probe base ext used (S (length used)) 2 with
       | Some candidate => (candidate, candidate :: used)
       | None => (name, used)
       end.

(** Names emitted, in row order, by successive calls sharing one set. *)
Fixpoint unique_names1 (used : list str) (names : list str) : list str :=
  match names with
  | [] => []
  | n :: ns =>
      let '(c, used') := ensure_unique n used in c :: unique_names1 used' ns
  end.

(* ------------------------------------------------------------------ *)
(** ** The [Counter] rename of [txt_to_csv.py] (V2) *)

(** A [Counter] keyed by stems, as an association list (missing key = 0). *)
Definition counter := list (str * nat).

Fixpoint counter_get (k : str) (c : counter) : nat :=
  match c with
  | [] => 0
  | (k', v) :: c' => if str_eqb k k' then v else counter_get k c'
  end.

(** [used_names[base] += 1] *)
Definition counter_incr (k : str) (c : counter) : counter :=
  (k, S (counter_get k c)) :: c.

(** Lines 169-172; returns the name and the updated counter. *)
Definition counter_rename (fname : str) (used_names : counter) : str * counter :=
  let '(base, ext) := splitext fname in
  let used_names := counter_incr base used_names in
  let n := counter_get base used_names in
  if 1 <? n then (numbered base ext n, used_names) else (fname, used_names).

Fixpoint unique_names2 (used_names : counter) (names : list str) : list str :=
  match names with
  | [] => []
  | n :: ns =>
      let '(c, used') := counter_rename n used_names in c :: unique_names2 used' ns
  end.

(* ------------------------------------------------------------------ *)
(** ** Cells, rows and tables *)

(** A pandas cell as [read_csv] produces it: a Python [str], a number
    (with the text [str()] gives for it, e.g. ["1.0"]), a boolean, or a
    missing value ([NaN]). *)
Inductive cell :=
| CStr (s : str)
| CNum (repr : str)
| CBool (b : bool)
| CMissing.

(** [str(val)] *)
Definition py_str (v : cell) : str :=
  match v with
  | CStr s => s
  | CNum r => r
  | CBool true => lit "True"
  | CBool false => lit "False"
  | CMissing => lit "nan"
  end.

(** A row of [df.iterrows()]: its labels (the column names) with values. *)
Definition row := list (str * cell).

(** [row.values] *)
Definition row_values (r : row) : list cell := map snd r.

(** Label lookup, as [row.get(col)] and [row[col]] do it. *)
Fixpoint row_lookup (col : str) (r : row) : option cell :=
  match r with
  | [] => None
  | (k, v) :: r' => if str_eqb col k then Some v else row_lookup col r'
  end.

(** A data frame with the default [RangeIndex]: row [i] has label [i]. *)
Definition table := list row.

(** [isinstance(val, str) and val.strip()] *)
Definition is_text (v : cell) : bool :=
  match v with
  | CStr s => match strip s with [] => false | _ => true end
  | _ => false
  end.

(* ------------------------------------------------------------------ *)
(** ** Text selection *)

(** [first_string_cell] of [app.py]. *)
Fixpoint first_string_cell (vals : list cell) : option str :=
  match vals with
  | [] => None
  | v :: vs =>
      match v with
      | CStr s => if is_text v then Some s else first_string_cell vs
      | _ => first_string_cell vs
      end
  end.

(** [first_nonempty_str] of [txt_to_csv.py]. *)
Fixpoint first_nonempty_str (vals : list cell) : option str :=
  match vals with
  | [] => None
  | v :: vs =>
      match v with
      | CStr s => if is_text v then Some (strip s) else first_nonempty_str vs
      | _ => first_nonempty_str vs
      end
  end.

(** The radio button of [txt_to_csv.py]: a named column (the select box
    value; [None] when nothing is selected) or the first non-empty string. *)
Inductive text_mode :=
| FromColumn (text_col : option str)
| FirstNonEmpty.

(** Lines 149-153. *)
Definition select_text2 (mode : text_mode) (r : row) : option str :=
  match mode with
  | FromColumn text_col =>
      let val := match text_col with
                 | Some c => row_lookup c r
                 | None => None
                 end in
      match val with
      | Some (CStr s) => if is_text (CStr s) then Some s else None
      | _ => None
      end
  | FirstNonEmpty => first_nonempty_str (row_values r)
  end.

(** [not text_value] *)
Definition py_falsy (v : option str) : bool :=
  match v with None => true | Some [] => true | Some _ => false end.

(* ------------------------------------------------------------------ *)
(** ** File names *)

(** Lines 86-89 of [app.py]: [None] is the [KeyError] of [row[filename_col]].
    [filename_col] is the column whose lower-cased name is [filename], if
    any; [if filename_col:] tests the truthiness of that label. *)
Definition raw_name1 (filename_col : option str) (i : nat) (r : row)
    : option str :=
  match filename_col with
  | Some [] | None => Some (lit "row_" ++ show_nat (i + 1) ++ lit ".txt")
  | Some c =>
      match row_lookup c r with
      | Some v => Some (py_str v ++ lit ".txt")
      | None => None
      end
  end.

(** Line 91. *)
Definition resolve_name1 (filename_col : option str) (i : nat) (r : row)
    : option str :=
  match raw_name1 filename_col i r with
  | Some raw_name => Some (sanitize1 raw_name)
  | None => None
  end.

(** [name.lower().endswith(".txt")]. Only the four last code points of the
    lower-cased name matter, and the only code points whose lower case is
    one of [. t x] are those letters and [T], [X]: the only code point with
    a multi-character lower case (U+0130) ends it with U+0307. *)
Definition lower_ascii (c : N) : N :=
  if ((65 <=? c) && (c <=? 90))%N then (c + 32)%N else c.

Definition ends_with_txt_ci (name : str) : bool :=
  match rev name with
  | t2 :: x :: t1 :: d :: _ =>
      str_eqb (map lower_ascii [d; t1; x; t2]) (lit ".txt")
  | _ => false
  end.

(** [ensure_txt_suffix] *)
Definition ensure_txt_suffix (name : str) : str :=
  if ends_with_txt_ci name then name else name ++ lit ".txt".

(** The options of [txt_to_csv.py]; [filename_col = None] is the choice
    ["(없음)"]. *)
Record options2 := {
  text_mode_of : text_mode;
  filename_col_of : option str;
  prefix : str;
  suffix : str
}.

(** Lines 158-163: [row.get(filename_col, "")], then [or f"row_{i+1}"]. *)
Definition base_name2 (filename_col : option str) (i : nat) (r : row) : str :=
  match filename_col with
  | Some c =>
      let raw_name := strip (match row_lookup c r with
                             | Some v => py_str v
                             | None => []
                             end) in
      match sanitize2 raw_name with
      | [] => lit "row_" ++ show_nat (i + 1)
      | s => s
      end
  | None => lit "row_" ++ show_nat (i + 1)
  end.

(** Lines 165-166. *)
Definition resolve_name2 (o : options2) (i : nat) (r : row) : str :=
  let fname := prefix o ++ base_name2 (filename_col_of o) i r ++ suffix o in
  ensure_txt_suffix fname.

(* ------------------------------------------------------------------ *)
(** ** The conversion loops *)

(** An archive entry: [zf.writestr(file_name, text_value)]. *)
Definition entry := (str * str)%type.

Record report1 := {
  entries1 : list entry;
  rows_processed1 : nat;   (* [len(df)] in the success message *)
  files_created1 : nat     (* [created] *)
}.

(** Lines 78-95 of [app.py]; [None] when the loop raises. *)
Fixpoint loop1 (filename_col : option str) (i : nat) (rows : table)
    (used : list str) (created : nat) : option (list entry * nat) :=
  match rows with
  | [] => Some ([], created)
  | r :: rs =>
      match first_string_cell (row_values r) with
      | None => loop1 filename_col (S i) rs used created
      | Some text_value =>
          match resolve_name1 filename_col i r with
          | None => None
          | Some file_name =>
              let '(file_name, used) := ensure_unique file_name used in
              match loop1 filename_col (S i) rs used (S created) with
              | Some (es, n) => Some ((file_name, text_value) :: es, n)
              | None => None
              end
          end
      end
  end.

Definition convert1 (filename_col : option str) (df : table) : option report1 :=
  match loop1 filename_col 0 df [] 0 with
  | Some (es, created) =>
      Some {| entries1 := es; rows_processed1 := length df;
              files_created1 := created |}
  | None => None
  end.

Record report2 := {
  entries2 : list entry;
  rows_processed2 : nat    (* [len(df)] in the success message *)
}.

(** Lines 144-174 of [txt_to_csv.py]; nothing in the loop raises. *)
Fixpoint loop2 (o : options2) (i : nat) (rows : table) (used_names : counter)
    : list entry :=
  match rows with
  | [] => []
  | r :: rs =>
      let text_value := select_text2 (text_mode_of o) r in
      if py_falsy text_value then loop2 o (S i) rs used_names
      else
        let fname := resolve_name2 o i r in
        let '(fname, used_names) := counter_rename fname used_names in
        (fname, match text_value with Some t => t | None => [] end)
          :: loop2 o (S i) rs used_names
  end.

Definition convert2 (o : options2) (df : table) : report2 :=
  {| entries2 := loop2 o 0 df []; rows_processed2 := length df |}.

(* ------------------------------------------------------------------ *)
(** ** Derived views of a run, used to state its properties *)

(** The stem [os.path.splitext(name)[0]] the [Counter] is keyed by. *)
Definition stem (name : str) : str := fst (splitext name).

(** The resolved names of the rows [loop1] writes, in row order; [None]
    when [loop1] raises. *)
Fixpoint kept_names1 (filename_col : option str) (i : nat) (rows : table)
    : option (list str) :=
  match rows with
  | [] => Some []
  | r :: rs =>
      match first_string_cell (row_values r) with
      | None => kept_names1 filename_col (S i) rs
      | Some _ =>
          match resolve_name1 filename_col i r, kept_names1 filename_col (S i) rs with
          | Some n, Some ns => Some (n :: ns)
          | _, _ => None
          end
      end
  end.

(** The resolved names of the rows [loop2] writes, in row order. *)
Fixpoint kept_names2 (o : options2) (i : nat) (rows : table) : list str :=
  match rows with
  | [] => []
  | r :: rs =>
      if py_falsy (select_text2 (text_mode_of o) r) then kept_names2 o (S i) rs
      else resolve_name2 o i r :: kept_names2 o (S i) rs
  end.

(** Rows for which the text selector returns absent. *)
Definition count_absent1 (df : table) : nat :=
  List.length (filter (fun r => match first_string_cell (row_values r) with
                                | None => true | Some _ => false end) df).

Definition count_absent2 (mode : text_mode) (df : table) : nat :=
  List.length (filter (fun r => match select_text2 mode r with
                                | None => true | Some _ => false end) df).

(** The characters a file name must not contain: slash, backslash, colon,
    star, question mark, double quote, angle brackets, bar, CR, LF, TAB. *)
Definition illegal_char (c : N) : bool :=
  existsb (N.eqb c) [47; 92; 58; 42; 63; 34; 60; 62; 124; 13; 10; 9]%N.

(** Occurrences of a stem among names. *)
Definition count_stem (names : list str) (k : str) : nat :=
  count_occ (list_eq_dec N.eq_dec) (map stem names) k.

(** The counter after a sequence of names. *)
Fixpoint counter_after (c : counter) (names : list str) : counter :=
  match names with
  | [] => c
  | n :: ns => counter_after (counter_incr (stem n) c) ns
  end.

(** A string whose first code point (if any) is not whitespace. *)
Definition starts_ok (s : str) : Prop :=
  match s with [] => True | c :: _ => isspace c = false end.

Definition ends_ok (s : str) : Prop := starts_ok (rev s).

(* ------------------------------------------------------------------ *)
(** ** Reading the upload: [safe_read_csv] of [txt_to_csv.py] *)

Inductive encoding := Utf8 | Cp949 | EucKr | Latin1.

Definition encoding_name (e : encoding) : str :=
  match e with
  | Utf8 => lit "utf-8"
  | Cp949 => lit "cp949"
  | EucKr => lit "euc-kr"
  | Latin1 => lit "latin1"
  end.

(** The candidates of the automatic mode, in the order of line 30. *)
Definition auto_encodings : list encoding := [Utf8; Cp949; EucKr; Latin1].

(** The encoding select box: the automatic entry or one encoding. *)
Inductive encoding_choice := AutoDetect | Explicit (e : encoding).

(** [RuntimeError] of line 37 (its message), or the exception of
    [pd.read_csv] propagated from line 40. *)
Inductive read_error := TriedAll (message : str) | PandasError.

(** ["CSV를 읽는 데 실패했습니다. 시도한 인코딩: "] *)
Definition tried_prefix : str :=
  [67; 83; 86; 47484; 32; 51069; 45716; 32; 45936; 32; 49892; 54056; 54664;
   49845; 45768; 45796; 46; 32; 49884; 46020; 54620; 32; 51064; 53076; 46377;
   58; 32]%N.

(** [", ".join(names)] *)
Fixpoint join_comma (names : list str) : str :=
  match names with
  | [] => []
  | [n] => n
  | n :: ns => n ++ lit ", " ++ join_comma ns
  end.

(** [sep=sep_choice or None]: the empty string is falsy. *)
Definition sep_or_none (sep_choice : option str) : option str :=
  match sep_choice with Some [] => None | s => s end.

Section Reading.
(** [pd.read_csv(file, encoding=enc, sep=sep)], an external parser: a
    table, or [None] when it raises. *)
Variable read_csv : encoding -> option str -> option table.

(** The [for enc in (...)] loop of lines 30-36; [tried] holds the
    encodings that raised, most recent first. *)
Fixpoint try_encodings (encs tried : list encoding) (sep : option str)
    : read_error + table :=
  match encs with
  | [] => inl (TriedAll (tried_prefix ++ join_comma (map encoding_name (rev tried))))
  | enc :: encs' =>
      match read_csv enc sep with
      | Some df => inr df
      | None => try_encodings encs' (enc :: tried) sep
      end
  end.

Definition safe_read_csv (choice : encoding_choice) (sep_choice : option str)
    : read_error + table :=
  let sep := sep_or_none sep_choice in
  match choice with
  | AutoDetect => try_encodings auto_encodings [] sep
  | Explicit e =>
      match read_csv e sep with
      | Some df => inr df
      | None => inl PandasError
      end
  end.
End Reading.

(* ------------------------------------------------------------------ *)
(** ** The delimiter select box of [txt_to_csv.py] (lines 64-79) *)

(** ["자동 판별 실패(기본 , 사용)"] *)
Definition auto_fail_label : str :=
  [51088; 46041; 32; 54032; 48324; 32; 49892; 54056; 40; 44592; 48376; 32;
   44; 32; 49324; 50857; 41]%N.

(** The delimiters [sniff_delimiter] lets [csv.Sniffer] choose from. *)
Definition sniff_delimiters : list str := [lit ","; lit ";"; [9%N]; lit "|"].

(** [options=[delimiter_auto or "...", ",", ";", "\\t", "|"]]; the
    option ["\\t"] is a backslash followed by [t]. *)
Definition sep_options (delimiter_auto : option str) : list str :=
  let first := match delimiter_auto with
               | Some [] | None => auto_fail_label
               | Some d => d
               end in
  first :: [lit ","; lit ";"; [92; 116]%N; lit "|"].

(** Lines 74-79. *)
Definition selected_sep (sep_choice : str) : option str :=
  if str_eqb sep_choice auto_fail_label then None
  else if str_eqb sep_choice [92; 116]%N then Some [9%N]
  else Some sep_choice.

(* ------------------------------------------------------------------ *)
(** ** The filename column *)

(** [str(col).lower() == "filename"]. Lower-casing only ASCII letters gives
    the same answer: the only non-ASCII code points whose lower case has an
    ASCII letter are U+212A (to [k], absent from [filename]) and U+0130
    (to two code points, which makes the length differ). *)
Definition is_filename_label (col : str) : bool :=
  str_eqb (map lower_ascii col) (lit "filename").

(** Lines 69-73 of [app.py]: the first such column. *)
Fixpoint detect_filename_col (cols : list str) : option str :=
  match cols with
  | [] => None
  | c :: cs => if is_filename_label c then Some c else detect_filename_col cs
  end.

(** Line 123 of [txt_to_csv.py]. *)
Definition candidate_filename_cols (cols : list str) : list str :=
  match filter is_filename_label cols with
  | [] => cols
  | l => l
  end.

(* ------------------------------------------------------------------ *)
(** ** Contents and shapes, used to state properties of runs *)

(** The texts of the rows a run writes, in row order. *)
Fixpoint kept_texts1 (rows : table) : list str :=
  match rows with
  | [] => []
  | r :: rs =>
      match first_string_cell (row_values r) with
      | Some t => t :: kept_texts1 rs
      | None => kept_texts1 rs
      end
  end.

Fixpoint kept_texts2 (mode : text_mode) (rows : table) : list str :=
  match rows with
  | [] => []
  | r :: rs =>
      match select_text2 mode r with
      | Some t => t :: kept_texts2 mode rs
      | None => kept_texts2 mode rs
      end
  end.

(** No two consecutive whitespace code points. *)
Fixpoint no_double_space (s : str) : bool :=
  match s with
  | [] => true
  | a :: t =>
      match t with
      | b :: _ => negb (isspace a && isspace b)
      | [] => true
      end && no_double_space t
  end.

Definition is_dot (c : N) : bool := (c =? c_dot)%N.

(* ------------------------------------------------------------------ *)
(** ** Equality and membership *)

Lemma str_eqb_true a b : str_eqb a b = true <-> a = b.
Proof. unfold str_eqb; destruct (list_eq_dec N.eq_dec a b); split; congruence. Qed.

Lemma mem_true s l : mem s l = true <-> In s l.
Proof.
  unfold mem; rewrite existsb_exists; split.
  - intros [x [Hx Hs]]. apply str_eqb_true in Hs. subst; auto.
  - intros H. exists s. split; auto. apply str_eqb_true; auto.
Qed.

(* ------------------------------------------------------------------ *)
(** ** Facts about [strip] and [collapse] *)

Example sanitize1_example :
  sanitize1 (lit "a/b:c*.txt") = lit "a_b_c_.txt".
Proof. reflexivity. Qed.

Example sanitize2_example :
  sanitize2 (lit "  a /b	 c  ") = lit "a _b c".
Proof. reflexivity. Qed.



Lemma drop_ws_starts s : starts_ok (drop_ws s).
Proof.
  induction s as [|c t IH]; simpl; auto.
  destruct (isspace c) eqn:E; simpl; auto.
Qed.

Lemma starts_ok_drop_ws s : starts_ok s -> drop_ws s = s.
Proof. destruct s as [|c t]; simpl; auto. intros H; now rewrite H. Qed.

Lemma drop_ws_prefix s : exists p, s = p ++ drop_ws s.
Proof.
  induction s as [|c t [p Hp]]; simpl.
  - now exists [].
  - destruct (isspace c).
    + exists (c :: p). simpl. now f_equal.
    + now exists [].
Qed.

Lemma starts_ok_app a b : starts_ok (a ++ b) -> starts_ok a.
Proof. destruct a; simpl; auto. Qed.

Lemma strip_starts s : starts_ok (strip s).
Proof.
  unfold strip. set (u := drop_ws s).
  destruct (drop_ws_prefix (rev u)) as [p Hp].
  assert (Hu : u = rev (drop_ws (rev u)) ++ rev p).
  { rewrite <- rev_app_distr, <- Hp, rev_involutive. reflexivity. }
  apply (starts_ok_app _ (rev p)). rewrite <- Hu. apply drop_ws_starts.
Qed.

Lemma strip_ends s : ends_ok (strip s).
Proof. unfold ends_ok, strip. rewrite rev_involutive. apply drop_ws_starts. Qed.

Lemma strip_id s : starts_ok s -> ends_ok s -> strip s = s.
Proof.
  intros H1 H2. unfold strip. rewrite (starts_ok_drop_ws s H1).
  unfold ends_ok in H2. rewrite (starts_ok_drop_ws _ H2). apply rev_involutive.
Qed.

Lemma collapse_starts b s : starts_ok s -> starts_ok (collapse b s).
Proof. destruct s as [|c t]; simpl; auto. intros H; now rewrite H. Qed.

Lemma collapse_snoc b s c :
  isspace c = false -> collapse b (s ++ [c]) = collapse b s ++ [c].
Proof.
  intros Hc. revert b. induction s as [|d t IH]; intros b; simpl.
  - now rewrite Hc.
  - destruct (isspace d), b; simpl; now rewrite IH.
Qed.

Lemma collapse_ends b s : ends_ok s -> ends_ok (collapse b s).
Proof.
  unfold ends_ok. intros H.
  destruct (rev s) as [|c r] eqn:E.
  - apply (f_equal (@rev N)) in E. rewrite rev_involutive in E. subst. simpl; auto.
  - simpl in H. apply (f_equal (@rev N)) in E. rewrite rev_involutive in E.
    simpl in E. subst s. rewrite collapse_snoc by exact H.
    rewrite rev_app_distr. simpl. exact H.
Qed.

Lemma collapse_idem b s : collapse b (collapse b s) = collapse b s.
Proof.
  revert b. induction s as [|c t IH]; intros b; simpl; auto.
  destruct (isspace c) eqn:E.
  - destruct b; [apply IH|]. simpl. now rewrite IH.
  - simpl. rewrite E. now rewrite IH.
Qed.

Lemma collapse_incl b s x : In x (collapse b s) -> In x s \/ x = c_space.
Proof.
  revert b. induction s as [|c t IH]; intros b; simpl; [tauto|].
  destruct (isspace c), b; simpl; intros H.
  - destruct (IH _ H); tauto.
  - destruct H as [H|H]; [subst; tauto|destruct (IH _ H); tauto].
  - destruct H as [H|H]; [subst; tauto|destruct (IH _ H); tauto].
  - destruct H as [H|H]; [subst; tauto|destruct (IH _ H); tauto].
Qed.

Lemma collapse_ws_space b s x :
  In x (collapse b s) -> isspace x = true -> x = c_space.
Proof.
  revert b. induction s as [|c t IH]; intros b; simpl; [tauto|].
  destruct (isspace c) eqn:E, b; simpl; intros H Hx.
  - eapply IH; eassumption.
  - destruct H as [H|H]; [now subst|eapply IH; eassumption].
  - destruct H as [H|H]; [subst; congruence|eapply IH; eassumption].
  - destruct H as [H|H]; [subst; congruence|eapply IH; eassumption].
Qed.

Section MapPreservesEnds.
Variable f : N -> N.
Hypothesis f_nonspace : forall c, isspace c = false -> isspace (f c) = false.

Lemma map_starts s : starts_ok s -> starts_ok (map f s).
Proof. destruct s; simpl; auto. Qed.

Lemma map_ends s : ends_ok s -> ends_ok (map f s).
Proof. unfold ends_ok. rewrite <- map_rev. apply map_starts. Qed.
End MapPreservesEnds.

Lemma repl1_nonspace c : isspace c = false -> isspace (repl1 c) = false.
Proof. unfold repl1. destruct (forbidden1 c); auto. Qed.

Lemma repl2_nonspace c : isspace c = false -> isspace (repl2 c) = false.
Proof. unfold repl2. destruct (allowed2 c); auto. Qed.

Lemma repl1_idem c : repl1 (repl1 c) = repl1 c.
Proof. unfold repl1. destruct (forbidden1 c) eqn:E; [reflexivity|now rewrite E]. Qed.

Lemma repl2_idem c : repl2 (repl2 c) = repl2 c.
Proof. unfold repl2. destruct (allowed2 c) eqn:E; [now rewrite E|reflexivity]. Qed.

Lemma collapse_map2 b s :
  (forall x, In x s -> isspace x = true -> x = c_space) ->
  collapse b (map repl2 s) = map repl2 (collapse b s).
Proof.
  revert b. induction s as [|c t IH]; intros b Hs; simpl; auto.
  destruct (isspace c) eqn:E.
  - assert (c = c_space) by (apply Hs; simpl; auto). subst c.
    change (repl2 c_space) with c_space. rewrite E.
    destruct b; simpl; rewrite IH; auto; intros x Hx; apply Hs; simpl; auto.
  - rewrite (repl2_nonspace c E). simpl. rewrite IH; auto.
    intros x Hx; apply Hs; simpl; auto.
Qed.

Lemma sanitize1_fixed x w :
  w = collapse false (map repl1 (strip x)) -> w <> [] -> sanitize1 w = w.
Proof.
  intros Ew Hw. unfold sanitize1.
  rewrite strip_id by (subst w; apply collapse_starts + apply collapse_ends;
    (apply map_starts + apply map_ends); (apply repl1_nonspace + apply strip_starts
    + apply strip_ends)).
  replace (map repl1 w) with w.
  - assert (E : collapse false w = w) by (subst w; apply collapse_idem).
    rewrite E. destruct w; [congruence|reflexivity].
  - rewrite <- (map_id w) at 1. apply map_ext_in. intros y Hy.
    rewrite Ew in Hy.
    destruct (collapse_incl _ _ _ Hy) as [Hin| ->]; [|reflexivity].
    apply in_map_iff in Hin. destruct Hin as [z [<- _]]. now rewrite repl1_idem.
Qed.

Lemma sanitize2_fixed x w :
  w = map repl2 (collapse false (strip x)) -> w <> [] -> sanitize2 w = w.
Proof.
  intros Ew Hw. unfold sanitize2.
  rewrite strip_id.
  2:{ subst w. apply map_starts; [apply repl2_nonspace|]. apply collapse_starts, strip_starts. }
  2:{ subst w. apply map_ends; [apply repl2_nonspace|]. apply collapse_ends, strip_ends. }
  assert (E : map repl2 (collapse false w) = w).
  { subst w. rewrite collapse_map2 by apply collapse_ws_space.
    rewrite collapse_idem, map_map. apply map_ext. apply repl2_idem. }
  rewrite E. destruct w; [congruence|reflexivity].
Qed.

(* ------------------------------------------------------------------ *)
(** ** Facts about decimal rendering, [splitext] and [probe] *)

Lemma uint_codes_inj d d' : uint_codes d = uint_codes d' -> d = d'.
Proof.
  revert d'. induction d; intros d'; destruct d'; simpl; intros H;
    try discriminate; try reflexivity; injection H as H; f_equal; auto.
Qed.

Lemma show_nat_inj i j : show_nat i = show_nat j -> i = j.
Proof.
  unfold show_nat. intros H. apply uint_codes_inj in H.
  now apply DecimalNat.Unsigned.to_uint_inj.
Qed.

Lemma numbered_inj base ext i j :
  numbered base ext i = numbered base ext j -> i = j.
Proof.
  unfold numbered. intros H. apply app_inv_head in H. injection H as H.
  apply app_inv_tail in H. now apply show_nat_inj.
Qed.

Lemma split_first_spec c s a b :
  split_first c s = Some (a, b) -> s = a ++ c :: b.
Proof.
  revert a b. induction s as [|x xs IH]; intros a b; simpl; [discriminate|].
  destruct (x =? c)%N eqn:E.
  - intros H; injection H as <- <-. apply N.eqb_eq in E. now subst.
  - destruct (split_first c xs) as [[a' b']|] eqn:E'; [|discriminate].
    intros H; injection H as <- <-. simpl. f_equal. now apply IH.
Qed.

Lemma split_last_spec c s a b :
  split_last c s = Some (a, b) -> s = a ++ c :: b.
Proof.
  unfold split_last. destruct (split_first c (rev s)) as [[a' b']|] eqn:E;
    [|discriminate].
  intros H; injection H as <- <-. apply split_first_spec in E.
  rewrite <- (rev_involutive s), E, rev_app_distr. simpl.
  now rewrite <- app_assoc.
Qed.

Lemma splitext_app p : fst (splitext p) ++ snd (splitext p) = p.
Proof.
  unfold splitext.
  assert (Hht : forall h t, (match split_last c_slash p with
                             | Some (h, t) => (h ++ [c_slash], t)
                             | None => ([], p) end) = (h, t) -> h ++ t = p).
  { intros h t. destruct (split_last c_slash p) as [[h' t']|] eqn:E;
      intros H; injection H as <- <-; [|reflexivity].
    apply split_last_spec in E. subst p. now rewrite <- app_assoc. }
  destruct (match split_last c_slash p with
            | Some (h, t) => (h ++ [c_slash], t)
            | None => ([], p) end) as [h t] eqn:E.
  specialize (Hht h t eq_refl).
  destruct (split_last c_dot t) as [[t1 t2]|] eqn:E2; [|simpl; apply app_nil_r].
  destruct (existsb _ t1); [|simpl; apply app_nil_r]. simpl.
  apply split_last_spec in E2. subst. now rewrite <- app_assoc.
Qed.

Lemma numbered_neq base ext i : numbered base ext i <> base ++ ext.
Proof.
  unfold numbered. intros H. apply (f_equal (@List.length N)) in H.
  rewrite !length_app in H. simpl in H. rewrite length_app in H. lia.
Qed.

Section Probe.
Variables (base ext : str) (used : list str).

Lemma probe_some fuel i c :
  probe base ext used fuel i = Some c ->
  exists k, i <= k < i + fuel /\ c = numbered base ext k /\ ~ In c used /\
    forall j, i <= j < k -> In (numbered base ext j) used.
Proof.
  revert i. induction fuel as [|fuel IH]; intros i; simpl; [discriminate|].
  destruct (mem (numbered base ext i) used) eqn:E; simpl.
  - intros H. destruct (IH _ H) as [k [Hk [Hc [Hn Hj]]]].
    exists k. repeat split; auto; try lia.
    intros j Hj'. destruct (Nat.eq_dec j i) as [->|Hne].
    + now apply mem_true.
    + apply Hj. lia.
  - intros H; injection H as <-. exists i. repeat split; auto; try lia.
    + intros Hin. apply mem_true in Hin. congruence.
Qed.

Lemma probe_none fuel i :
  probe base ext used fuel i = None ->
  forall j, i <= j < i + fuel -> In (numbered base ext j) used.
Proof.
  revert i. induction fuel as [|fuel IH]; intros i; simpl; [intros; lia|].
  destruct (mem (numbered base ext i) used) eqn:E; simpl; [|discriminate].
  intros H j Hj. destruct (Nat.eq_dec j i) as [->|Hne].
  - now apply mem_true.
  - apply (IH _ H). lia.
Qed.

Lemma probe_enough : probe base ext used (S (length used)) 2 <> None.
Proof.
  intros H. pose proof (probe_none _ _ H) as Hall.
  assert (Hnd : NoDup (map (numbered base ext) (seq 2 (S (length used))))).
  { apply NoDup_map_NoDup_ForallPairs; [intros x y _ _; apply numbered_inj|].
    apply seq_NoDup. }
  apply (NoDup_incl_length (l' := used)) in Hnd.
  - rewrite length_map, length_seq in Hnd. lia.
  - intros x Hx. apply in_map_iff in Hx. destruct Hx as [j [<- Hj]].
    apply in_seq in Hj. apply Hall. lia.
Qed.
End Probe.

Lemma ensure_unique_fresh name used :
  ~ In (fst (ensure_unique name used)) used /\
  snd (ensure_unique name used) = fst (ensure_unique name used) :: used.
Proof.
  unfold ensure_unique. destruct (splitext name) as [base ext].
  destruct (mem name used) eqn:E; cbn [negb].
  - destruct (probe base ext used (S (length used)) 2) as [c|] eqn:P.
    + apply probe_some in P. destruct P as [k [_ [_ [Hn _]]]]. simpl; split; auto.
    + exfalso. exact (probe_enough _ _ _ P).
  - simpl. split; auto. intros Hin. apply mem_true in Hin. congruence.
Qed.

Lemma ensure_unique_keep name used :
  fst (ensure_unique name used) = name <-> ~ In name used.
Proof.
  unfold ensure_unique. pose proof (splitext_app name) as Hs.
  destruct (splitext name) as [base ext]. simpl in Hs.
  destruct (mem name used) eqn:E; cbn [negb].
  - split; [|intros H; apply mem_true in E; contradiction].
    destruct (probe base ext used (S (length used)) 2) as [c|] eqn:P.
    + apply probe_some in P. destruct P as [k [_ [-> _]]]. simpl.
      intros H. exfalso. apply (numbered_neq base ext k). congruence.
    + exfalso. exact (probe_enough _ _ _ P).
  - simpl. split; auto. intros _ Hin. apply mem_true in Hin. congruence.
Qed.

(* ------------------------------------------------------------------ *)
(** ** The set-based renaming of [app.py], in row order *)

Lemma unique_names1_length used names :
  List.length (unique_names1 used names) = List.length names.
Proof.
  revert used. induction names as [|n ns IH]; intros used; simpl; auto.
  destruct (ensure_unique n used) as [c u']. simpl. now rewrite IH.
Qed.

Lemma unique_names1_fresh used names :
  (forall c, In c (unique_names1 used names) -> ~ In c used) /\
  NoDup (unique_names1 used names).
Proof.
  revert used. induction names as [|n ns IH]; intros used; simpl.
  - split; [tauto|constructor].
  - pose proof (ensure_unique_fresh n used) as [Hn Hu].
    destruct (ensure_unique n used) as [c u']. simpl in *. subst u'.
    destruct (IH (c :: used)) as [Hf Hnd]. split.
    + intros x [<-|Hx]; auto. intros Hin. apply (Hf x Hx). simpl; auto.
    + constructor; auto. intros Hin. apply (Hf c Hin). simpl; auto.
Qed.

Lemma unique_names1_app used pre rest :
  unique_names1 used (pre ++ rest) =
  unique_names1 used pre ++ unique_names1 (rev (unique_names1 used pre) ++ used) rest.
Proof.
  revert used. induction pre as [|n pre IH]; intros used; simpl; auto.
  pose proof (ensure_unique_fresh n used) as [_ Hu].
  destruct (ensure_unique n used) as [c u']. simpl in *. subst u'.
  rewrite IH. simpl. now rewrite <- app_assoc.
Qed.

(* ------------------------------------------------------------------ *)
(** ** The [Counter] renaming of [txt_to_csv.py], in row order *)


Lemma counter_get_incr k k' c :
  counter_get k (counter_incr k' c) =
  if str_eqb k k' then S (counter_get k c) else counter_get k c.
Proof. simpl. destruct (str_eqb k k') eqn:E; auto. apply str_eqb_true in E. now subst. Qed.

Lemma counter_rename_eq fname c :
  counter_rename fname c =
  (if 1 <? S (counter_get (stem fname) c)
   then numbered (stem fname) (snd (splitext fname)) (S (counter_get (stem fname) c))
   else fname, counter_incr (stem fname) c).
Proof.
  unfold counter_rename, stem. destruct (splitext fname) as [b e]. simpl.
  unfold counter_incr at 2. simpl.
  destruct (str_eqb b b) eqn:E; [now destruct (1 <? S (counter_get b c))|].
  exfalso. assert (b = b) as H by reflexivity. apply str_eqb_true in H. congruence.
Qed.

Lemma unique_names2_length c names :
  List.length (unique_names2 c names) = List.length names.
Proof.
  revert c. induction names as [|n ns IH]; intros c; simpl; auto.
  destruct (counter_rename n c) as [x u']. simpl. now rewrite IH.
Qed.

Lemma unique_names2_app c pre rest :
  unique_names2 c (pre ++ rest) =
  unique_names2 c pre ++ unique_names2 (counter_after c pre) rest.
Proof.
  revert c. induction pre as [|n pre IH]; intros c; simpl; auto.
  rewrite counter_rename_eq. simpl. now rewrite IH.
Qed.

Lemma count_stem_cons n ns k :
  count_stem (n :: ns) k =
  if list_eq_dec N.eq_dec (stem n) k then S (count_stem ns k) else count_stem ns k.
Proof. reflexivity. Qed.

Lemma counter_after_get k c names :
  counter_get k (counter_after c names) = counter_get k c + count_stem names k.
Proof.
  revert c. induction names as [|n ns IH]; intros c; simpl; [unfold count_stem; simpl; lia|].
  rewrite IH, counter_get_incr, count_stem_cons.
  destruct (str_eqb k (stem n)) eqn:E;
    destruct (list_eq_dec N.eq_dec (stem n) k) as [Heq|Hne].
  - lia.
  - apply str_eqb_true in E. congruence.
  - subst k. exfalso. assert (stem n = stem n) as H by reflexivity.
    apply str_eqb_true in H. congruence.
  - lia.
Qed.

(* ------------------------------------------------------------------ *)
(** ** Text selection facts *)

Lemma strip_nil : strip [] = [].
Proof. reflexivity. Qed.

Lemma is_text_nonempty s : is_text (CStr s) = true -> s <> [].
Proof. simpl. intros H ->. discriminate H. Qed.

Lemma first_nonempty_str_nonempty vals s :
  first_nonempty_str vals = Some s -> s <> [].
Proof.
  induction vals as [|v vs IH]; simpl; [discriminate|].
  destruct v as [s'| | |]; auto.
  destruct (is_text (CStr s')) eqn:E; auto.
  intros H; injection H as <-. simpl in E. destruct (strip s'); congruence.
Qed.

Lemma select_text2_nonempty mode r s :
  select_text2 mode r = Some s -> s <> [].
Proof.
  destruct mode as [text_col|]; unfold select_text2.
  - destruct (match text_col with Some c => row_lookup c r | None => None end)
      as [[s'| | |]|]; try discriminate.
    destruct (is_text (CStr s')) eqn:E; [|discriminate].
    intros H; injection H as <-. now apply is_text_nonempty.
  - apply first_nonempty_str_nonempty.
Qed.

Lemma py_falsy_select mode r :
  py_falsy (select_text2 mode r) =
  match select_text2 mode r with None => true | Some _ => false end.
Proof.
  destruct (select_text2 mode r) as [s|] eqn:E; auto.
  apply select_text2_nonempty in E. destruct s; [congruence|reflexivity].
Qed.

(* ------------------------------------------------------------------ *)
(** ** The loops against the renaming stages *)

Lemma loop2_names o i rows c :
  map fst (loop2 o i rows c) = unique_names2 c (kept_names2 o i rows).
Proof.
  revert i c. induction rows as [|r rs IH]; intros i c; simpl; auto.
  destruct (py_falsy (select_text2 (text_mode_of o) r)); auto.
  simpl. destruct (counter_rename (resolve_name2 o i r) c) as [f u]. simpl.
  now rewrite IH.
Qed.

Lemma loop2_count o i rows c :
  List.length (loop2 o i rows c) + count_absent2 (text_mode_of o) rows
  = List.length rows.
Proof.
  revert i c. induction rows as [|r rs IH]; intros i c; simpl; auto.
  unfold count_absent2 in *. simpl. rewrite py_falsy_select.
  destruct (select_text2 (text_mode_of o) r); simpl.
  - destruct (counter_rename (resolve_name2 o i r) c) as [f u]. simpl.
    rewrite IH. reflexivity.
  - rewrite <- IH with (i := S i) (c := c). lia.
Qed.

Lemma loop1_spec fc i rows used created es n :
  loop1 fc i rows used created = Some (es, n) ->
  exists names, kept_names1 fc i rows = Some names /\
    map fst es = unique_names1 used names /\
    n = created + List.length es /\
    List.length es + count_absent1 rows = List.length rows.
Proof.
  revert i used created es n.
  induction rows as [|r rs IH]; intros i used created es n; simpl.
  - intros H; injection H as <- <-. exists []. simpl. repeat split; lia.
  - unfold count_absent1 in *. simpl.
    destruct (first_string_cell (row_values r)) as [t|]; simpl.
    + destruct (resolve_name1 fc i r) as [f|]; [|discriminate].
      pose proof (ensure_unique_fresh f used) as [_ Hu].
      destruct (ensure_unique f used) as [f' u'] eqn:Eu. simpl in Hu. subst u'.
      destruct (loop1 fc (S i) rs (f' :: used) (S created)) as [[es' n']|] eqn:E;
        [|discriminate].
      intros H; injection H as <- <-.
      destruct (IH _ _ _ _ _ E) as [names [Hk [Hm [Hn Hc]]]].
      exists (f :: names). rewrite Hk. simpl. rewrite Eu. simpl.
      repeat split; try (f_equal; assumption); lia.
    + intros H. destruct (IH _ _ _ _ _ H) as [names [Hk [Hm [Hn Hc]]]].
      exists names. repeat split; auto; lia.
Qed.

(* ------------------------------------------------------------------ *)
(** ** Characters and suffixes of resolved names *)

Lemma existsb_eqb_In c l : existsb (N.eqb c) l = true <-> In c l.
Proof.
  rewrite existsb_exists. split.
  - intros [x [Hx E]]. apply N.eqb_eq in E. now subst.
  - intros H. exists c. split; auto. apply N.eqb_refl.
Qed.

Lemma illegal_forbidden1 c : forbidden1 c = false -> illegal_char c = false.
Proof.
  intros H. destruct (illegal_char c) eqn:E; auto.
  unfold illegal_char in E. apply existsb_eqb_In in E.
  unfold forbidden1 in H. rewrite <- H. symmetry. apply existsb_eqb_In.
  simpl in *. tauto.
Qed.

Lemma illegal_not_allowed2 c : allowed2 c = true -> illegal_char c = false.
Proof.
  intros H. destruct (illegal_char c) eqn:E; auto.
  unfold illegal_char in E. apply existsb_eqb_In in E. simpl in E.
  repeat (destruct E as [<-|E]; [discriminate H|]). contradiction.
Qed.

Lemma repl1_ok y : forbidden1 (repl1 y) = false.
Proof. unfold repl1. destruct (forbidden1 y) eqn:E; [reflexivity|exact E]. Qed.

Lemma repl2_ok y : allowed2 (repl2 y) = true.
Proof. unfold repl2. destruct (allowed2 y) eqn:E; [exact E|reflexivity]. Qed.

Lemma sanitize1_nonempty x : sanitize1 x <> [].
Proof. unfold sanitize1. destruct (collapse false (map repl1 (strip x))); discriminate. Qed.

Lemma sanitize2_nonempty x : sanitize2 x <> [].
Proof. unfold sanitize2. destruct (map repl2 (collapse false (strip x))); discriminate. Qed.

Lemma sanitize1_chars x c : In c (sanitize1 x) -> forbidden1 c = false.
Proof.
  unfold sanitize1. destruct (collapse false (map repl1 (strip x))) as [|d t] eqn:E.
  - simpl. intros H. repeat (destruct H as [<-|H]; [reflexivity|]). contradiction.
  - rewrite <- E. intros H. destruct (collapse_incl _ _ _ H) as [Hin| ->].
    + apply in_map_iff in Hin. destruct Hin as [y [<- _]]. apply repl1_ok.
    + reflexivity.
Qed.

Lemma sanitize2_chars x c : In c (sanitize2 x) -> allowed2 c = true.
Proof.
  unfold sanitize2. destruct (map repl2 (collapse false (strip x))) as [|d t] eqn:E.
  - simpl. intros H. repeat (destruct H as [<-|H]; [reflexivity|]). contradiction.
  - rewrite <- E. intros H. apply in_map_iff in H. destruct H as [y [<- _]].
    apply repl2_ok.
Qed.

Lemma uint_codes_digits d c : In c (uint_codes d) -> (48 <= c <= 57)%N.
Proof. induction d; simpl; intros H; try contradiction; destruct H as [<-|H]; auto; lia. Qed.

Lemma digit_allowed2 c : (48 <= c <= 57)%N -> allowed2 c = true.
Proof.
  intros Hc. assert (H : ((48 <=? c) && (c <=? 57))%N = true).
  { apply andb_true_iff; split; apply N.leb_le; lia. }
  unfold allowed2. rewrite H, orb_true_r. reflexivity.
Qed.

Lemma row_index_allowed2 i c : In c (lit "row_" ++ show_nat i) -> allowed2 c = true.
Proof.
  intros H. apply in_app_or in H. destruct H as [H|H].
  - simpl in H. repeat (destruct H as [<-|H]; [reflexivity|]). contradiction.
  - apply digit_allowed2. eapply uint_codes_digits. exact H.
Qed.

Lemma base_name2_chars fc i r c : In c (base_name2 fc i r) -> allowed2 c = true.
Proof.
  unfold base_name2. destruct fc as [col|]; [|apply row_index_allowed2].
  destruct (sanitize2 _) as [|d t] eqn:E.
  - apply row_index_allowed2.
  - rewrite <- E. apply sanitize2_chars.
Qed.

Lemma ensure_txt_suffix_chars s c :
  In c (ensure_txt_suffix s) -> In c s \/ In c (lit ".txt").
Proof.
  unfold ensure_txt_suffix. destruct (ends_with_txt_ci s); auto.
  intros H. now apply in_app_or in H.
Qed.

Lemma ends_with_txt_ci_nonempty s : ends_with_txt_ci s = true -> s <> [].
Proof. intros H ->. discriminate H. Qed.

Lemma ends_with_txt_ci_app s : ends_with_txt_ci (s ++ lit ".txt") = true.
Proof. unfold ends_with_txt_ci. rewrite rev_app_distr. reflexivity. Qed.

Lemma ensure_txt_suffix_nonempty s : ensure_txt_suffix s <> [].
Proof.
  unfold ensure_txt_suffix. destruct (ends_with_txt_ci s) eqn:E.
  - now apply ends_with_txt_ci_nonempty.
  - intros H. apply (f_equal (@List.length N)) in H.
    rewrite length_app in H. simpl in H. lia.
Qed.

Lemma ensure_txt_suffix_ends s : ends_with_txt_ci (ensure_txt_suffix s) = true.
Proof.
  unfold ensure_txt_suffix. destruct (ends_with_txt_ci s) eqn:E; auto.
  apply ends_with_txt_ci_app.
Qed.

Lemma drop_ws_app s d :
  starts_ok d -> drop_ws (s ++ d) = drop_ws s ++ d.
Proof.
  intros Hd. induction s as [|c t IH]; simpl.
  - now apply starts_ok_drop_ws.
  - destruct (isspace c); auto.
Qed.

Lemma collapse_app_nonspace b s d :
  (forall c, In c d -> isspace c = false) ->
  collapse b (s ++ d) = collapse b s ++ d.
Proof.
  induction d as [|x d IH] using rev_ind; intros Hd.
  - now rewrite !app_nil_r.
  - rewrite app_assoc, collapse_snoc, IH, app_assoc; auto.
    + intros c Hc. apply Hd. apply in_or_app; auto.
    + apply Hd. apply in_or_app; simpl; auto.
Qed.

(** [sanitize_filename(f"{x}.txt")] keeps the [.txt] it is given. *)
Lemma sanitize1_txt raw :
  sanitize1 (raw ++ lit ".txt") = collapse false (map repl1 (drop_ws raw)) ++ lit ".txt".
Proof.
  unfold sanitize1, strip.
  rewrite drop_ws_app by (simpl; reflexivity).
  rewrite rev_app_distr.
  replace (drop_ws (rev (lit ".txt") ++ rev (drop_ws raw)))
    with (rev (lit ".txt") ++ rev (drop_ws raw)) by reflexivity.
  rewrite <- rev_app_distr, rev_involutive, map_app.
  replace (map repl1 (lit ".txt")) with (lit ".txt") by reflexivity.
  rewrite collapse_app_nonspace.
  - destruct (collapse false (map repl1 (drop_ws raw))); reflexivity.
  - simpl. intros c H. repeat (destruct H as [<-|H]; [reflexivity|]). contradiction.
Qed.

(* ------------------------------------------------------------------ *)
(** ** Text selection, step by step *)

Lemma first_string_cell_skip v vs :
  is_text v = false -> first_string_cell (v :: vs) = first_string_cell vs.
Proof. intros H. destruct v; cbn [first_string_cell]; try rewrite H; reflexivity. Qed.

Lemma first_string_cell_none vals :
  first_string_cell vals = None <-> forall v, In v vals -> is_text v = false.
Proof.
  induction vals as [|v vs IH]; [simpl; tauto|].
  destruct (is_text v) eqn:E.
  - destruct v as [s| | |]; try discriminate. cbn [first_string_cell]. rewrite E.
    split; [discriminate|]. intros H. rewrite H in E; simpl; auto. discriminate.
  - rewrite first_string_cell_skip by exact E. rewrite IH. simpl.
    split; [intros H w [<-|Hw]; auto|intros H w Hw; apply H; auto].
Qed.

Lemma first_string_cell_some vals s :
  first_string_cell vals = Some s <->
  exists pre post, vals = pre ++ CStr s :: post /\ is_text (CStr s) = true /\
    forall v, In v pre -> is_text v = false.
Proof.
  split.
  - induction vals as [|v vs IH]; [discriminate|].
    destruct (is_text v) eqn:E.
    + destruct v as [s'| | |]; try discriminate. cbn [first_string_cell]. rewrite E.
      intros H; injection H as <-. exists [], vs. simpl. repeat split; auto.
      intros v [].
    + rewrite first_string_cell_skip by exact E. intros H.
      destruct (IH H) as [pre [post [-> [Hs Hpre]]]].
      exists (v :: pre), post. repeat split; auto.
      intros w [<-|Hw]; auto.
  - intros [pre [post [-> [Hs Hpre]]]]. induction pre as [|v pre IH].
    + simpl app. cbn [first_string_cell]. now rewrite Hs.
    + simpl app. rewrite first_string_cell_skip by (apply Hpre; simpl; auto).
      apply IH. intros w Hw; apply Hpre; simpl; auto.
Qed.

Lemma first_nonempty_str_strip vals :
  first_nonempty_str vals = option_map strip (first_string_cell vals).
Proof.
  induction vals as [|v vs IH]; cbn [first_nonempty_str first_string_cell]; auto.
  destruct v as [s| | |]; auto. destruct (is_text (CStr s)); auto.
Qed.

(* ------------------------------------------------------------------ *)
(** ** Positions in the renamed sequences *)

Lemma unique_names1_at u pre n post :
  nth_error (unique_names1 u (pre ++ n :: post)) (List.length pre)
  = Some (fst (ensure_unique n (rev (unique_names1 u pre) ++ u))).
Proof.
  rewrite unique_names1_app, nth_error_app2 by (rewrite unique_names1_length; lia).
  rewrite unique_names1_length, Nat.sub_diag. simpl.
  destruct (ensure_unique n _); reflexivity.
Qed.

Lemma unique_names2_at c pre n post :
  nth_error (unique_names2 c (pre ++ n :: post)) (List.length pre)
  = Some (fst (counter_rename n (counter_after c pre))).
Proof.
  rewrite unique_names2_app, nth_error_app2 by (rewrite unique_names2_length; lia).
  rewrite unique_names2_length, Nat.sub_diag. simpl.
  destruct (counter_rename n _); reflexivity.
Qed.

(* ------------------------------------------------------------------ *)
(** * Properties of the specification *)

(** C9: [sanitize_filename] is idempotent in both variants:
    sanitizing an already sanitized name changes nothing. *)
Theorem sanitize_filename_idempotent x :
  sanitize1 (sanitize1 x) = sanitize1 x /\ sanitize2 (sanitize2 x) = sanitize2 x.
Proof.
  split.
  - unfold sanitize1 at 2 3.
    destruct (collapse false (map repl1 (strip x))) as [|c t] eqn:E.
    + reflexivity.
    + apply (sanitize1_fixed x); [now rewrite E|discriminate].
  - unfold sanitize2 at 2 3.
    destruct (map repl2 (collapse false (strip x))) as [|c t] eqn:E.
    + reflexivity.
    + apply (sanitize2_fixed x); [now rewrite E|discriminate].
Qed.

(** C10: the [while True] loop of [ensure_unique] stops for every name and
    every finite set [used]: within [len(used) + 1] iterations it reaches a
    counter [k] whose candidate [f"{base}_{k}{ext}"] is not in [used], after
    trying the counters [2 .. k-1], whose candidates all are. *)
Theorem ensure_unique_terminates name used :
  exists k,
    probe (stem name) (snd (splitext name)) used (S (List.length used)) 2
      = Some (numbered (stem name) (snd (splitext name)) k) /\
    2 <= k <= List.length used + 2 /\
    ~ In (numbered (stem name) (snd (splitext name)) k) used /\
    forall j, 2 <= j < k -> In (numbered (stem name) (snd (splitext name)) j) used.
Proof.
  set (base := stem name). set (ext := snd (splitext name)).
  destruct (probe base ext used (S (List.length used)) 2) as [c|] eqn:P.
  - apply probe_some in P as Hp. destruct Hp as [k [Hk [Hc [Hn Hj]]]].
    subst c. exists k. repeat split; auto; lia.
  - exfalso. exact (probe_enough _ _ _ P).
Qed.

(** C6 (corrected): both selectors scan the cells in column order and
    select the first cell that is a [str] and non-blank after [strip()];
    numbers, booleans and missing cells never qualify. [first_string_cell]
    of [app.py] returns that cell unchanged, [first_nonempty_str] of
    [txt_to_csv.py] returns it stripped. Both return [None] exactly when no
    cell qualifies. *)
Theorem first_string_selection vals :
  (first_string_cell vals = None <-> forall v, In v vals -> is_text v = false) /\
  (forall s, first_string_cell vals = Some s <->
     exists pre post, vals = pre ++ CStr s :: post /\ is_text (CStr s) = true /\
       forall v, In v pre -> is_text v = false) /\
  first_nonempty_str vals = option_map strip (first_string_cell vals).
Proof.
  split; [apply first_string_cell_none|].
  split; [intros s; apply first_string_cell_some|].
  apply first_nonempty_str_strip.
Qed.

(** C6: counterexample. [first_nonempty_str] returns the selected cell
    stripped, not the cell's value. *)
Lemma first_nonempty_str_returns_stripped :
  first_nonempty_str [CStr (lit " hi ")] = Some (lit "hi") /\
  lit "hi" <> lit " hi ".
Proof. split; [reflexivity|discriminate]. Qed.

(** C2 (corrected): [txt_to_csv.py] appends [.txt] only when the name
    (after prefix and suffix) does not already end with [.txt] in any case,
    so every resolved name ends with [.txt] case-insensitively and a name
    ending with [.TXT] is kept. [app.py] appends [.txt] to the cell text
    unconditionally before sanitizing; the resolved name is the sanitized
    text followed by that [.txt]. *)
Theorem txt_suffix_resolution :
  (forall o i r,
     resolve_name2 o i r
       = ensure_txt_suffix (prefix o ++ base_name2 (filename_col_of o) i r ++ suffix o)) /\
  (forall name, ends_with_txt_ci name = true -> ensure_txt_suffix name = name) /\
  (forall name, ends_with_txt_ci name = false -> ensure_txt_suffix name = name ++ lit ".txt") /\
  (forall o i r, ends_with_txt_ci (resolve_name2 o i r) = true) /\
  (forall fc i r raw, raw_name1 fc i r = Some (raw ++ lit ".txt") ->
     resolve_name1 fc i r
       = Some (collapse false (map repl1 (drop_ws raw)) ++ lit ".txt")) /\
  (forall fc i r, exists raw, raw_name1 fc i r = None \/ raw_name1 fc i r = Some (raw ++ lit ".txt")).
Proof.
  split; [reflexivity|].
  split; [intros name H; unfold ensure_txt_suffix; now rewrite H|].
  split; [intros name H; unfold ensure_txt_suffix; now rewrite H|].
  split; [intros; apply ensure_txt_suffix_ends|].
  split.
  - intros fc i r raw H. unfold resolve_name1. rewrite H. f_equal. apply sanitize1_txt.
  - intros fc i r. unfold raw_name1.
    destruct fc as [[|x c]|].
    + exists (lit "row_" ++ show_nat (i + 1)). right. now rewrite <- app_assoc.
    + destruct (row_lookup (x :: c) r); [eexists; right; reflexivity|exists []; now left].
    + exists (lit "row_" ++ show_nat (i + 1)). right. now rewrite <- app_assoc.
Qed.

(** C2: counterexample. In [app.py] a [filename] cell [report.TXT] gives
    the name [report.TXT.txt]. *)
Lemma app_report_TXT_gets_txt :
  resolve_name1 (Some (lit "filename")) 0
    [(lit "filename", CStr (lit "report.TXT")); (lit "text", CStr (lit "hi"))]
  = Some (lit "report.TXT.txt").
Proof. reflexivity. Qed.

(** C3 (corrected): [app.py] sanitizes the whole resolved name, which is
    never empty and has none of the characters slash, backslash, colon,
    star, question mark, double quote, angle brackets, bar, CR, LF, TAB.
    [txt_to_csv.py] sanitizes only the name taken from the row and adds the
    prefix and suffix afterwards, unsanitized: the resolved name is never
    empty, and it is free of those characters whenever the prefix and the
    suffix are. *)
Theorem resolved_name_legal_chars :
  (forall fc i r n, resolve_name1 fc i r = Some n ->
     n <> [] /\ forall c, In c n -> illegal_char c = false) /\
  (forall o i r,
     resolve_name2 o i r <> [] /\
     ((forall c, In c (prefix o) -> illegal_char c = false) ->
      (forall c, In c (suffix o) -> illegal_char c = false) ->
      forall c, In c (resolve_name2 o i r) -> illegal_char c = false)).
Proof.
  split.
  - intros fc i r n. unfold resolve_name1.
    destruct (raw_name1 fc i r) as [raw|]; [|discriminate].
    intros H; injection H as <-. split; [apply sanitize1_nonempty|].
    intros c Hc. apply illegal_forbidden1. eapply sanitize1_chars; eassumption.
  - intros o i r. split; [apply ensure_txt_suffix_nonempty|].
    intros Hp Hs c Hc. apply ensure_txt_suffix_chars in Hc. destruct Hc as [Hc|Hc].
    + apply in_app_or in Hc. destruct Hc as [Hc|Hc]; auto.
      apply in_app_or in Hc. destruct Hc as [Hc|Hc]; auto.
      apply illegal_not_allowed2. eapply base_name2_chars; eassumption.
    + simpl in Hc. repeat (destruct Hc as [<-|Hc]; [reflexivity|]). contradiction.
Qed.

(** C3: counterexample. In [txt_to_csv.py] a prefix [a/] reaches the
    resolved name unchanged. *)
Lemma prefix_not_sanitized :
  resolve_name2 {| text_mode_of := FirstNonEmpty; filename_col_of := None;
                   prefix := lit "a/"; suffix := [] |} 0
                [(lit "text", CStr (lit "hi"))]
  = lit "a/row_1.txt" /\ illegal_char c_slash = true.
Proof. split; reflexivity. Qed.

(** C5 (corrected): whenever a filename column is chosen, the base name is
    the [str()] of its cell, also for a missing cell ([NaN] gives [nan]);
    [row_{i+1}] is used only when no filename column is chosen. [app.py]
    appends [.txt] to the untrimmed cell text and sanitizes the whole name
    (raising [KeyError] if the row lacks the column); [txt_to_csv.py] trims
    and sanitizes the cell text ([""] when the row lacks the column), and
    its [or f"row_{i+1}"] fallback is never taken. *)
Theorem base_name_sources :
  (forall x c i r,
     resolve_name1 (Some (x :: c)) i r
     = match row_lookup (x :: c) r with
       | Some v => Some (sanitize1 (py_str v ++ lit ".txt"))
       | None => None
       end) /\
  (forall i r,
     resolve_name1 None i r = Some (sanitize1 (lit "row_" ++ show_nat (i + 1) ++ lit ".txt"))) /\
  (forall c i r,
     base_name2 (Some c) i r
     = sanitize2 (strip (match row_lookup c r with Some v => py_str v | None => [] end))) /\
  (forall i r, base_name2 None i r = lit "row_" ++ show_nat (i + 1)) /\
  py_str CMissing = lit "nan".
Proof.
  split; [intros x c i r; unfold resolve_name1, raw_name1; now destruct (row_lookup _ r)|].
  split; [reflexivity|].
  split; [|split; reflexivity].
  intros c i r. unfold base_name2.
  destruct (sanitize2 _) eqn:E; [exfalso; eapply sanitize2_nonempty; eassumption|reflexivity].
Qed.

(** C5: counterexample. A missing cell of the filename column gives the
    name [nan.txt] in both variants, not [row_1.txt]. *)
Lemma missing_filename_cell_gives_nan :
  let r := [(lit "name", CMissing); (lit "text", CStr (lit "hi"))] in
  resolve_name1 (Some (lit "name")) 0 r = Some (lit "nan.txt") /\
  resolve_name2 {| text_mode_of := FirstNonEmpty; filename_col_of := Some (lit "name");
                   prefix := []; suffix := [] |} 0 r = lit "nan.txt".
Proof. split; reflexivity. Qed.

(** C7 (corrected): in [app.py] a written row keeps its resolved name
    exactly when no earlier row was written under that name, where earlier
    names include the renamed ones. In [txt_to_csv.py] it keeps it exactly
    when no earlier written row's name has the same stem
    ([os.path.splitext(name)[0]]). *)
Theorem first_occurrence_kept :
  (forall fc df rep pre n post,
     convert1 fc df = Some rep ->
     kept_names1 fc 0 df = Some (pre ++ n :: post) ->
     (nth_error (map fst (entries1 rep)) (List.length pre) = Some n <->
      ~ In n (firstn (List.length pre) (map fst (entries1 rep))))) /\
  (forall o df pre n post,
     kept_names2 o 0 df = pre ++ n :: post ->
     (nth_error (map fst (entries2 (convert2 o df))) (List.length pre) = Some n <->
      ~ In (stem n) (map stem pre))).
Proof.
  split.
  - intros fc df rep pre n post Hc Hk. unfold convert1 in Hc.
    destruct (loop1 fc 0 df [] 0) as [[es m]|] eqn:E; [|discriminate].
    injection Hc as <-. simpl.
    destruct (loop1_spec _ _ _ _ _ _ _ E) as [names [Hk' [Hm _]]].
    rewrite Hk in Hk'. injection Hk' as <-. rewrite Hm, unique_names1_at.
    rewrite unique_names1_app, firstn_app, unique_names1_length, Nat.sub_diag.
    rewrite firstn_all2 by (rewrite unique_names1_length; lia). simpl.
    rewrite app_nil_r, app_nil_r.
    split.
    + intros H. injection H as H. apply ensure_unique_keep in H.
      intros Hin. apply H. now apply in_rev in Hin.
    + intros H. f_equal. apply ensure_unique_keep. intros Hin. apply H.
      now apply in_rev.
  - intros o df pre n post Hk. unfold convert2. simpl.
    rewrite loop2_names, Hk, unique_names2_at, counter_rename_eq.
    rewrite counter_after_get. simpl.
    pose proof (splitext_app n) as Hn. fold (stem n) in Hn.
    destruct (1 <? S (count_stem pre (stem n))) eqn:E.
    + apply Nat.ltb_lt in E. split.
      * intros H. injection H as H. exfalso.
        apply (numbered_neq (stem n) (snd (splitext n)) (S (count_stem pre (stem n)))).
        congruence.
      * intros H. exfalso. apply H. unfold count_stem in E.
        apply (count_occ_In (list_eq_dec N.eq_dec)). lia.
    + apply Nat.ltb_ge in E. split; [intros _|reflexivity].
      apply (count_occ_not_In (list_eq_dec N.eq_dec)). unfold count_stem in E. lia.
Qed.

(** C7: counterexample. In [app.py] the third row is the first to resolve
    to [x_2.txt] and is written as [x_2_2.txt]; in [txt_to_csv.py] the
    second row is the first to resolve to [x.TXT] and is written as
    [x_2.TXT]. *)
Lemma first_occurrence_renamed :
  let row_named (s : string) : row := [(lit "name", CStr (lit s))] in
  option_map (fun rep => map fst (entries1 rep))
    (convert1 (Some (lit "name")) [row_named "x"%string; row_named "x"%string; row_named "x_2"%string])
  = Some [lit "x.txt"; lit "x_2.txt"; lit "x_2_2.txt"] /\
  map fst (entries2 (convert2 {| text_mode_of := FirstNonEmpty;
                                 filename_col_of := Some (lit "name");
                                 prefix := []; suffix := [] |}
                      [row_named "x.txt"%string; row_named "x.TXT"%string]))
  = [lit "x.txt"; lit "x_2.TXT"].
Proof. split; reflexivity. Qed.

(** C8: a completed run reports [len(df)] rows processed; in [app.py] the
    reported [created] equals the number of archive entries; in both
    variants that number is the number of rows minus the rows for which
    the text selector returned [None]. ([txt_to_csv.py] reports only the
    row count.) *)
Theorem skip_accounting :
  (forall fc df rep, convert1 fc df = Some rep ->
     rows_processed1 rep = List.length df /\
     files_created1 rep = List.length (entries1 rep) /\
     files_created1 rep = List.length df - count_absent1 df) /\
  (forall o df,
     rows_processed2 (convert2 o df) = List.length df /\
     List.length (entries2 (convert2 o df))
       = List.length df - count_absent2 (text_mode_of o) df).
Proof.
  split.
  - intros fc df rep Hc. unfold convert1 in Hc.
    destruct (loop1 fc 0 df [] 0) as [[es m]|] eqn:E; [|discriminate].
    injection Hc as <-. simpl.
    destruct (loop1_spec _ _ _ _ _ _ _ E) as [names [_ [_ [Hm Hcount]]]].
    repeat split; lia.
  - intros o df. simpl. split; [reflexivity|].
    pose proof (loop2_count o 0 df []). lia.
Qed.

(** C1 (divergence): the [Counter] renaming of [txt_to_csv.py] emits the
    same name twice when a row's own name equals a generated one: rows
    named [x], [x], [x_2] are written as [x.txt], [x_2.txt], [x_2.txt]. *)
Lemma counter_rename_emits_duplicate :
  let row_named (s : string) : row := [(lit "name", CStr (lit s))] in
  let names := map fst (entries2 (convert2 {| text_mode_of := FirstNonEmpty;
                                              filename_col_of := Some (lit "name");
                                              prefix := []; suffix := [] |}
                          [row_named "x"%string; row_named "x"%string; row_named "x_2"%string])) in
  names = [lit "x.txt"; lit "x_2.txt"; lit "x_2.txt"] /\ ~ NoDup names.
Proof.
  intros row_named names.
  assert (E : names = [lit "x.txt"; lit "x_2.txt"; lit "x_2.txt"]) by reflexivity.
  split; [exact E|]. rewrite E. intros H.
  apply NoDup_cons_iff in H as [_ H]. apply NoDup_cons_iff in H as [H _].
  apply H. simpl; auto.
Qed.

(* ------------------------------------------------------------------ *)
(** ** The properties at concrete inputs *)

Lemma txt_suffix_resolution_witness :
  ends_with_txt_ci (lit "report.TXT") = true /\
  ensure_txt_suffix (lit "report.TXT") = lit "report.TXT".
Proof.
  split; [reflexivity|].
  apply (proj1 (proj2 txt_suffix_resolution)). reflexivity.
Defined.

Lemma resolved_name_legal_chars_witness :
  resolve_name2 {| text_mode_of := FirstNonEmpty; filename_col_of := None;
                   prefix := lit "a/"; suffix := [] |} 0 [(lit "text", CStr (lit "hi"))] <> [] /\
  forall c, In c (resolve_name2 {| text_mode_of := FirstNonEmpty;
                                   filename_col_of := Some (lit "name");
                                   prefix := lit "p-"; suffix := lit "-s" |} 0
                                [(lit "name", CStr (lit "a:b"))]) ->
    illegal_char c = false.
Proof.
  split.
  - exact (proj1 (proj2 resolved_name_legal_chars _ 0 _)).
  - refine (proj2 (proj2 resolved_name_legal_chars _ 0 _) _ _);
      simpl; intros c Hc; repeat (destruct Hc as [<-|Hc]; [reflexivity|]); contradiction.
Defined.

Lemma first_string_selection_witness :
  first_string_cell [CNum (lit "1.0"); CMissing; CStr (lit " hi ")] = Some (lit " hi ").
Proof.
  apply (proj1 (proj2 (first_string_selection _)) (lit " hi ")).
  exists [CNum (lit "1.0"); CMissing], []. split; [reflexivity|]. split; [reflexivity|].
  simpl. intros v [<-|[<-|[]]]; reflexivity.
Defined.

Lemma first_occurrence_kept_witness :
  let o := {| text_mode_of := FirstNonEmpty; filename_col_of := Some (lit "name");
              prefix := []; suffix := [] |} in
  let df := [[(lit "name", CStr (lit "x"))]; [(lit "name", CStr (lit "y"))]] in
  nth_error (map fst (entries2 (convert2 o df))) 1 = Some (lit "y.txt") <->
  ~ In (stem (lit "y.txt")) (map stem [lit "x.txt"]).
Proof.
  intros o df.
  apply ((proj2 first_occurrence_kept) o df [lit "x.txt"] (lit "y.txt") []).
  reflexivity.
Defined.

Lemma skip_accounting_witness :
  let df := [[(lit "text", CStr (lit "hi"))]; [(lit "text", CNum (lit "3.0"))]] in
  files_created1 {| entries1 := [(lit "row_1.txt", lit "hi")];
                    rows_processed1 := 2; files_created1 := 1 |}
  = List.length df - count_absent1 df.
Proof.
  intros df.
  apply ((proj1 skip_accounting) None df). reflexivity.
Defined.

(* ------------------------------------------------------------------ *)
(** * Further properties of the code *)

(** ** Reading the upload *)

Lemma try_encodings_ok read encs tried sep df :
  try_encodings read encs tried sep = inr df <->
  exists pre e post, encs = pre ++ e :: post /\
    (forall e', In e' pre -> read e' sep = None) /\ read e sep = Some df.
Proof.
  revert tried. induction encs as [|e es IH]; intros tried; simpl.
  - split; [discriminate|]. intros [pre [e [post [H _]]]]. destruct pre; discriminate.
  - destruct (read e sep) as [d|] eqn:R.
    + split.
      * intros H; injection H as <-. exists [], e, es. simpl. repeat split; auto.
        intros e' [].
      * intros [pre [e0 [post [Heq [Hpre Hr]]]]].
        destruct pre as [|e1 pre]; simpl in Heq; injection Heq as <- _.
        -- congruence.
        -- rewrite Hpre in R by (simpl; auto). discriminate.
    + rewrite IH. split.
      * intros [pre [e0 [post [-> [Hpre Hr]]]]]. exists (e :: pre), e0, post.
        repeat split; auto. intros e' [<-|He']; auto.
      * intros [pre [e0 [post [Heq [Hpre Hr]]]]].
        destruct pre as [|e1 pre]; simpl in Heq; injection Heq as <- Heq.
        -- congruence.
        -- exists pre, e0, post. repeat split; auto. intros e' He'. apply Hpre. simpl; auto.
Qed.

Lemma try_encodings_fail read encs tried sep :
  (forall e, In e encs -> read e sep = None) ->
  try_encodings read encs tried sep
  = inl (TriedAll (tried_prefix ++ join_comma (map encoding_name (rev tried ++ encs)))).
Proof.
  revert tried. induction encs as [|e es IH]; intros tried H; simpl.
  - now rewrite app_nil_r.
  - rewrite (H e (or_introl eq_refl)). rewrite IH by (intros; apply H; simpl; auto).
    simpl. now rewrite <- app_assoc.
Qed.

(** [safe_read_csv] in its automatic mode returns the table of the first
    encoding, in the order utf-8, cp949, euc-kr, latin1, for which
    [pd.read_csv] succeeds; when all four raise, it raises a
    [RuntimeError] whose message lists the four encodings in that order. *)
Theorem safe_read_csv_first_success read sep :
  (forall df, safe_read_csv read AutoDetect sep = inr df <->
     exists pre e post, auto_encodings = pre ++ e :: post /\
       (forall e', In e' pre -> read e' (sep_or_none sep) = None) /\
       read e (sep_or_none sep) = Some df) /\
  ((forall e, read e (sep_or_none sep) = None) ->
   safe_read_csv read AutoDetect sep
   = inl (TriedAll (tried_prefix ++ lit "utf-8, cp949, euc-kr, latin1"))).
Proof.
  split.
  - intros df. apply try_encodings_ok.
  - intros H. unfold safe_read_csv. rewrite try_encodings_fail by auto. reflexivity.
Qed.

(** ** The delimiter select box *)

Ltac pick_in := simpl In; repeat (first [left; reflexivity | right]).

(** With the default (first) option of the delimiter select box, the
    separator passed to [pd.read_csv] is the sniffed delimiter, or [None]
    (pandas' own detection) when sniffing failed; the fourth option, the
    two characters backslash and [t], gives a real TAB; every option gives
    [None] or one of comma, semicolon, TAB and bar. *)
Theorem default_separator_is_sniffed d :
  (d = None \/ exists x, d = Some x /\ In x sniff_delimiters) ->
  selected_sep (hd [] (sep_options d)) = d /\
  (nth 3 (sep_options d) [] = [92; 116]%N /\
   selected_sep (nth 3 (sep_options d) []) = Some [9%N]) /\
  forall ch, In ch (sep_options d) ->
    selected_sep ch = None \/ exists x, selected_sep ch = Some x /\ In x sniff_delimiters.
Proof.
  intros [->|[x [-> Hx]]].
  2: simpl in Hx; repeat (destruct Hx as [<-|Hx]); try contradiction.
  all: split; [reflexivity|].
  all: split; [split; reflexivity|].
  all: intros ch Hch; simpl in Hch; repeat (destruct Hch as [<-|Hch]); try contradiction.
  all: first [left; reflexivity | right; eexists; split; [reflexivity|pick_in]].
Qed.

(** ** The filename column *)

Lemma detect_filename_col_hd cols :
  detect_filename_col cols = hd_error (filter is_filename_label cols).
Proof.
  induction cols as [|c cs IH]; simpl; auto.
  destruct (is_filename_label c); auto.
Qed.

(** [app.py] uses the first column named [filename] in any case; the
    select box of [txt_to_csv.py] offers the columns so named, or every
    column when there is none, so it offers only columns of the table,
    offers none only for a table without columns, and offers first the
    column [app.py] would use. *)
Theorem filename_column_detection cols :
  detect_filename_col cols = hd_error (filter is_filename_label cols) /\
  (forall c, In c (candidate_filename_cols cols) -> In c cols) /\
  (candidate_filename_cols cols = [] <-> cols = []) /\
  (forall c, detect_filename_col cols = Some c ->
     hd_error (candidate_filename_cols cols) = Some c) /\
  (detect_filename_col cols = None -> candidate_filename_cols cols = cols).
Proof.
  rewrite detect_filename_col_hd. unfold candidate_filename_cols.
  destruct (filter is_filename_label cols) as [|f fs] eqn:E.
  - repeat split; auto; discriminate.
  - repeat split.
    + intros c Hc. rewrite <- E in Hc. apply filter_In in Hc. tauto.
    + discriminate.
    + intros ->. discriminate.
    + auto.
    + discriminate.
Qed.

(** ** Base names in [txt_to_csv.py] *)

(** A row whose cell in the chosen filename column is blank (a string of
    whitespace only) gets the base name [untitled], not [row_{i+1}]: the
    [or] fallback of line 161 never applies. *)
Theorem blank_name_cell_untitled c i r v :
  row_lookup c r = Some v -> strip (py_str v) = [] ->
  base_name2 (Some c) i r = untitled.
Proof.
  intros H Hv. unfold base_name2. rewrite H, Hv. reflexivity.
Qed.

(** ** Which runs of [app.py] raise a [KeyError] *)

Lemma match_loop1_none (o : option (list entry * nat)) (e : entry) :
  match o with Some (es, n) => Some (e :: es, n) | None => None end = None <-> o = None.
Proof. destruct o as [[es n]|]; split; congruence. Qed.

Lemma loop1_none x c i rows used created :
  loop1 (Some (x :: c)) i rows used created = None <->
  exists r, In r rows /\ first_string_cell (row_values r) <> None /\
    row_lookup (x :: c) r = None.
Proof.
  revert i used created. induction rows as [|r rs IH]; intros i used created; simpl.
  - split; [discriminate|]. intros [r [[] _]].
  - destruct (first_string_cell (row_values r)) as [t|] eqn:F.
    + unfold resolve_name1, raw_name1.
      destruct (row_lookup (x :: c) r) as [v|] eqn:L.
      * destruct (ensure_unique (sanitize1 (py_str v ++ lit ".txt")) used) as [fn u].
        rewrite match_loop1_none, IH. split.
        -- intros [r' [H1 H2]]. exists r'. auto.
        -- intros [r' [[<-|H1] H2]]; [|eauto]. destruct H2 as [_ H2]. congruence.
      * split; [intros _|reflexivity]. exists r. split; [auto|split; congruence].
    + rewrite IH. split.
      * intros [r' [H1 H2]]. exists r'. auto.
      * intros [r' [[<-|H1] H2]]; [|eauto]. destruct H2 as [H2 _]. congruence.
Qed.

Lemma loop1_total fc i rows used created :
  (fc = None \/ fc = Some []) -> loop1 fc i rows used created <> None.
Proof.
  intros Hfc. revert i used created.
  induction rows as [|r rs IH]; intros i used created; simpl; [discriminate|].
  destruct (first_string_cell (row_values r)); [|apply IH].
  assert (H : resolve_name1 fc i r
              = Some (sanitize1 (lit "row_" ++ show_nat (i + 1) ++ lit ".txt")))
    by (destruct Hfc as [-> | ->]; reflexivity).
  rewrite H. destruct (ensure_unique _ used) as [fn u].
  specialize (IH (S i) u (S created)).
  destruct (loop1 fc (S i) rs u (S created)) as [[es n]|]; [discriminate|contradiction].
Qed.

Lemma convert1_none_iff df :
  (forall x c, convert1 (Some (x :: c)) df = None <->
     exists r, In r df /\ first_string_cell (row_values r) <> None /\
       row_lookup (x :: c) r = None) /\
  (forall fc, (fc = None \/ fc = Some []) -> convert1 fc df <> None).
Proof.
  split.
  - intros x c. rewrite <- (loop1_none x c 0 df [] 0). unfold convert1.
    destruct (loop1 (Some (x :: c)) 0 df [] 0) as [[es n]|]; split; congruence.
  - intros fc Hfc. unfold convert1.
    pose proof (loop1_total fc 0 df [] 0 Hfc) as H1.
    destruct (loop1 fc 0 df [] 0) as [[es n]|] eqn:E1; [discriminate|].
    exfalso. first [exact (H1 E1) | exact (H1 eq_refl)].
Qed.

Lemma row_lookup_in c r : In c (map fst r) -> row_lookup c r <> None.
Proof.
  induction r as [|[k v] r IH]; simpl; [tauto|].
  intros [->|H].
  - unfold str_eqb. destruct (list_eq_dec N.eq_dec c c); [discriminate|congruence].
  - destruct (str_eqb c k); [discriminate|auto].
Qed.

Lemma detect_filename_col_in cols c : detect_filename_col cols = Some c -> In c cols.
Proof.
  induction cols as [|c' cs IH]; simpl; [discriminate|].
  destruct (is_filename_label c'); [intros E; injection E as ->; auto|auto].
Qed.

(** When every row of the table has the columns of its header, the run of
    [convert_csv_to_txt] with the filename column found by the loop of
    lines 69-73 never raises [KeyError] at [row[filename_col]]. *)
Theorem app_never_key_error cols df :
  (forall r, In r df -> map fst r = cols) ->
  convert1 (detect_filename_col cols) df <> None.
Proof.
  intros Hrows. destruct (detect_filename_col cols) as [[|x c]|] eqn:D.
  - apply (proj2 (convert1_none_iff df)); auto.
  - rewrite (proj1 (convert1_none_iff df)).
    intros [r [Hr [_ Hl]]]. apply (row_lookup_in (x :: c) r); auto.
    rewrite (Hrows r Hr). now apply detect_filename_col_in.
  - apply (proj2 (convert1_none_iff df)); auto.
Qed.

(** ** The [created == 0] test of [app.py] *)

Lemma filter_length_le' {A} (f : A -> bool) l :
  List.length (filter f l) <= List.length l.
Proof. induction l as [|a l IH]; simpl; [lia|]. destruct (f a); simpl; lia. Qed.

Lemma filter_length_all {A} (f : A -> bool) l :
  List.length (filter f l) = List.length l <-> forall x, In x l -> f x = true.
Proof.
  induction l as [|a l IH]; simpl.
  - split; [tauto|reflexivity].
  - destruct (f a) eqn:E; simpl.
    + split.
      * intros H x [<-|Hx]; auto. apply IH; auto.
      * intros H. f_equal. apply IH. auto.
    + split.
      * intros H. pose proof (filter_length_le' f l). lia.
      * intros H. rewrite H in E by auto. discriminate.
Qed.

(** [convert_csv_to_txt] reports that it created no file exactly when no
    row of the table has a string cell with non-blank text: the warning
    of line 107 is shown for those tables and only for them. *)
Theorem no_file_created_iff fc df rep :
  convert1 fc df = Some rep ->
  (files_created1 rep = 0 <->
   forall r, In r df -> first_string_cell (row_values r) = None).
Proof.
  unfold convert1. destruct (loop1 fc 0 df [] 0) as [[es n]|] eqn:L; [|discriminate].
  intros H; injection H as <-. simpl.
  destruct (loop1_spec _ _ _ _ _ _ _ L) as [names [_ [_ [Hn Hc]]]].
  unfold count_absent1 in Hc. rewrite Hn. simpl.
  split.
  - intros H0 r Hr.
    assert (Hlen : List.length (filter (fun r => match first_string_cell (row_values r) with
                                | None => true | Some _ => false end) df)
                   = List.length df) by lia.
    assert (Hall := proj1 (filter_length_all _ df) Hlen r Hr). simpl in Hall.
    destruct (first_string_cell (row_values r)); [discriminate|reflexivity].
  - intros Hall.
    assert (H0 : forall r, In r df ->
      (match first_string_cell (row_values r) with None => true | Some _ => false end)
      = true) by (intros r Hr; now rewrite Hall).
    apply filter_length_all in H0. lia.
Qed.

(** ** The contents of the written files *)

Lemma loop2_texts o i rows c :
  map snd (loop2 o i rows c) = kept_texts2 (text_mode_of o) rows.
Proof.
  revert i c. induction rows as [|r rs IH]; intros i c; simpl; auto.
  rewrite py_falsy_select. destruct (select_text2 (text_mode_of o) r); auto.
  destruct (counter_rename (resolve_name2 o i r) c) as [f u]. simpl. f_equal. apply IH.
Qed.

Lemma loop1_texts fc i rows used created es n :
  loop1 fc i rows used created = Some (es, n) -> map snd es = kept_texts1 rows.
Proof.
  revert i used created es n.
  induction rows as [|r rs IH]; intros i used created es n; simpl.
  - intros H; injection H as <- _. reflexivity.
  - destruct (first_string_cell (row_values r)) as [t|]; [|apply IH].
    destruct (resolve_name1 fc i r) as [f|]; [|discriminate].
    destruct (ensure_unique f used) as [f' u].
    destruct (loop1 fc (S i) rs u (S created)) as [[es' n']|] eqn:E; [|discriminate].
    intros H; injection H as <- _. simpl. f_equal. eapply IH; eauto.
Qed.

(** The files written hold, in row order, the selected text of each row
    that has one: the first non-blank string cell in [app.py], the text
    chosen by the text mode in [txt_to_csv.py], unchanged. *)
Theorem written_contents :
  (forall o df, map snd (entries2 (convert2 o df)) = kept_texts2 (text_mode_of o) df) /\
  (forall fc df rep, convert1 fc df = Some rep -> map snd (entries1 rep) = kept_texts1 df).
Proof.
  split.
  - intros o df. apply loop2_texts.
  - intros fc df rep. unfold convert1.
    destruct (loop1 fc 0 df [] 0) as [[es n]|] eqn:L; [|discriminate].
    intros H; injection H as <-. simpl. eapply loop1_texts; eauto.
Qed.

(** ** The [Counter] suffix of [txt_to_csv.py] *)

(** The row written in position [length pre] of the archive is named [n]
    if no earlier written row has [n]'s stem, and otherwise
    [stem_{k+1}ext] where [k] earlier written rows have that stem. *)
Theorem counter_suffix_occurrence o df pre n post :
  kept_names2 o 0 df = pre ++ n :: post ->
  nth_error (map fst (entries2 (convert2 o df))) (List.length pre) =
  Some (if count_stem pre (stem n) =? 0 then n
        else numbered (stem n) (snd (splitext n)) (S (count_stem pre (stem n)))).
Proof.
  intros Hk. unfold convert2. simpl.
  rewrite loop2_names, Hk, unique_names2_at, counter_rename_eq.
  rewrite counter_after_get. simpl.
  destruct (count_stem pre (stem n)) as [|k]; reflexivity.
Qed.

(** ** [ensure_unique] of [app.py] *)

(** [ensure_unique] returns a name not yet used and records it; it keeps
    the name when it is free, and otherwise returns [base_k + ext] for the
    least [k >= 2] whose name is free. *)
Theorem ensure_unique_spec name used :
  ~ In (fst (ensure_unique name used)) used /\
  snd (ensure_unique name used) = fst (ensure_unique name used) :: used /\
  (~ In name used -> fst (ensure_unique name used) = name) /\
  (In name used -> exists k, 2 <= k /\
     fst (ensure_unique name used) = numbered (stem name) (snd (splitext name)) k /\
     forall j, 2 <= j < k -> In (numbered (stem name) (snd (splitext name)) j) used).
Proof.
  destruct (ensure_unique_fresh name used) as [H1 H2].
  split; [exact H1|]. split; [exact H2|]. split; [apply ensure_unique_keep|].
  intros Hin. unfold ensure_unique, stem.
  destruct (splitext name) as [b e]. cbv beta iota.
  apply mem_true in Hin. rewrite Hin. cbn [negb fst snd].
  destruct (probe b e used (S (length used)) 2) as [c|] eqn:P.
  - apply probe_some in P. destruct P as [k [Hk [-> [_ Hj]]]].
    exists k. split; [lia|]. split; [reflexivity|]. exact Hj.
  - exfalso. exact (probe_enough _ _ _ P).
Qed.

(** ** [ensure_txt_suffix] of [txt_to_csv.py] *)

(** [ensure_txt_suffix] is idempotent: its result always ends in [.txt]
    (in any case), so a second application changes nothing. *)
Theorem ensure_txt_suffix_idem s :
  ensure_txt_suffix (ensure_txt_suffix s) = ensure_txt_suffix s.
Proof.
  unfold ensure_txt_suffix at 1. now rewrite ensure_txt_suffix_ends.
Qed.

(** ** The extension of the names written by [app.py] *)

Lemma split_first_none c s : ~ In c s -> split_first c s = None.
Proof.
  induction s as [|x xs IH]; simpl; auto. intros H.
  destruct (x =? c)%N eqn:E; [apply N.eqb_eq in E; tauto|].
  rewrite IH; auto.
Qed.

Lemma split_first_app c a b : ~ In c a -> split_first c (a ++ c :: b) = Some (a, b).
Proof.
  induction a as [|x xs IH]; simpl; intros H.
  - now rewrite N.eqb_refl.
  - destruct (x =? c)%N eqn:E; [apply N.eqb_eq in E; tauto|].
    rewrite IH; auto.
Qed.

Lemma split_last_app c a b : ~ In c b -> split_last c (a ++ c :: b) = Some (a, b).
Proof.
  intros H. unfold split_last. rewrite rev_app_distr. simpl. rewrite <- app_assoc.
  simpl. rewrite split_first_app by (rewrite <- in_rev; exact H).
  now rewrite !rev_involutive.
Qed.

Lemma split_last_none c s : ~ In c s -> split_last c s = None.
Proof.
  intros H. unfold split_last. rewrite split_first_none; auto.
  rewrite <- in_rev. exact H.
Qed.

Lemma existsb_nondot X :
  existsb (fun c => negb (c =? c_dot)%N) X = negb (forallb is_dot X).
Proof.
  induction X as [|a X IH]; simpl; auto. unfold is_dot.
  destruct (a =? c_dot)%N; simpl; auto.
Qed.

Lemma splitext_txt X :
  ~ In c_slash X ->
  splitext (X ++ lit ".txt") =
  if forallb is_dot X then (X ++ lit ".txt", []) else (X, lit ".txt").
Proof.
  intros H. unfold splitext.
  rewrite split_last_none.
  2:{ rewrite in_app_iff. intros [H'|H']; [tauto|].
      simpl in H'. unfold c_slash in H'. repeat (destruct H' as [H'|H']; [discriminate|]).
      exact H'. }
  change (lit ".txt") with (c_dot :: lit "txt").
  rewrite split_last_app by (simpl; unfold c_dot; intros [H'|[H'|[H'|[]]]]; discriminate).
  rewrite existsb_nondot. destruct (forallb is_dot X); reflexivity.
Qed.

Lemma ensure_unique_txt X used :
  ~ In c_slash X ->
  (exists Y, fst (ensure_unique (X ++ lit ".txt") used) = Y ++ lit ".txt") \/
  (exists k, forallb is_dot X = true /\
     fst (ensure_unique (X ++ lit ".txt") used) = numbered (X ++ lit ".txt") [] k).
Proof.
  intros H. unfold ensure_unique. rewrite (splitext_txt X H).
  destruct (forallb is_dot X) eqn:D;
    destruct (mem (X ++ lit ".txt") used); cbn [negb]; cbv beta iota.
  - destruct (probe (X ++ lit ".txt") [] used (S (length used)) 2) as [c|] eqn:P.
    + apply probe_some in P. destruct P as [k [_ [-> _]]]. right. exists k. auto.
    + left. exists X. reflexivity.
  - left. exists X. reflexivity.
  - destruct (probe X (lit ".txt") used (S (length used)) 2) as [c|] eqn:P.
    + apply probe_some in P. destruct P as [k [_ [-> _]]]. left.
      exists (X ++ c_under :: show_nat k). unfold numbered. simpl.
      now rewrite <- app_assoc.
    + left. exists X. reflexivity.
  - left. exists X. reflexivity.
Qed.

Lemma sanitize1_txt_shape raw :
  exists X, sanitize1 (raw ++ lit ".txt") = X ++ lit ".txt" /\ ~ In c_slash X.
Proof.
  exists (collapse false (map repl1 (drop_ws raw))). split; [apply sanitize1_txt|].
  intros H. destruct (collapse_incl _ _ _ H) as [Hin|Hs]; [|discriminate].
  apply in_map_iff in Hin. destruct Hin as [y [Hy _]].
  pose proof (repl1_ok y) as Hf. rewrite Hy in Hf. discriminate.
Qed.

Lemma resolve_name1_shape fc i r n :
  resolve_name1 fc i r = Some n -> exists X, n = X ++ lit ".txt" /\ ~ In c_slash X.
Proof.
  unfold resolve_name1, raw_name1.
  destruct fc as [[|x c]|].
  2: destruct (row_lookup (x :: c) r) as [v|]; [|discriminate].
  all: intros E; injection E as <-.
  all: first [ apply sanitize1_txt_shape
             | apply (sanitize1_txt_shape (lit "row_" ++ show_nat (i + 1))) ].
Qed.

Lemma kept_names1_in fc i rows names n :
  kept_names1 fc i rows = Some names -> In n names ->
  exists j r, resolve_name1 fc j r = Some n.
Proof.
  revert i names. induction rows as [|r rs IH]; intros i names; simpl.
  - intros E; injection E as <-. intros [].
  - destruct (first_string_cell (row_values r)); [|apply IH].
    destruct (resolve_name1 fc i r) as [m|] eqn:R; [|discriminate].
    destruct (kept_names1 fc (S i) rs) as [ms|] eqn:K; [|discriminate].
    intros E; injection E as <-. intros [<-|H]; [eauto|].
    eapply IH; eauto.
Qed.

Lemma unique_names1_in u names x :
  In x (unique_names1 u names) -> exists n u', In n names /\ x = fst (ensure_unique n u').
Proof.
  revert u. induction names as [|n ns IH]; intros u; simpl; [intros []|].
  destruct (ensure_unique n u) as [c u'] eqn:E. simpl. intros [<-|H].
  - exists n, u. rewrite E. auto.
  - destruct (IH _ H) as [m [u'' [Hm Hx]]]. exists m, u''. auto.
Qed.

(** Every name written by [convert_csv_to_txt] ends in [.txt], except when
    the sanitized name is [.txt] preceded by dots only and had to be
    renamed: [splitext] then sees no extension and the counter goes after
    [.txt] (for example [.txt_2]). *)
Theorem app_names_txt_extension fc df rep :
  convert1 fc df = Some rep ->
  forall n, In n (map fst (entries1 rep)) ->
  (exists X, n = X ++ lit ".txt") \/
  (exists X k, forallb is_dot X = true /\ n = numbered (X ++ lit ".txt") [] k).
Proof.
  unfold convert1. destruct (loop1 fc 0 df [] 0) as [[es m]|] eqn:L; [|discriminate].
  intros H; injection H as <-. simpl. intros n Hn.
  destruct (loop1_spec _ _ _ _ _ _ _ L) as [names [Hk [Hm _]]].
  rewrite Hm in Hn. destruct (unique_names1_in _ _ _ Hn) as [n0 [u [Hn0 ->]]].
  destruct (kept_names1_in _ _ _ _ _ Hk Hn0) as [j [r Hr]].
  destruct (resolve_name1_shape _ _ _ _ Hr) as [X [-> HX]].
  destruct (ensure_unique_txt X u HX) as [[Y HY]|[k [D HY]]].
  - left. eauto.
  - right. eauto.
Qed.

(** ** The shape of sanitized names *)

Lemma collapse_no_double b s :
  no_double_space (collapse b s) = true /\ (b = true -> starts_ok (collapse b s)).
Proof.
  revert b. induction s as [|c t IH]; intros b; simpl; [split; auto|].
  destruct (isspace c) eqn:Ec.
  - destruct (IH true) as [H1 H2]. specialize (H2 eq_refl).
    destruct b; [split; auto|].
    split; [|discriminate].
    simpl. rewrite H1. destruct (collapse true t) as [|d u]; simpl in *; auto.
    rewrite H2. reflexivity.
  - destruct (IH false) as [H1 _]. split; [|intros _; exact Ec].
    simpl. rewrite H1, Ec. destruct (collapse false t); reflexivity.
Qed.

Lemma no_double_map f s :
  (forall c, In c s -> isspace (f c) = isspace c) ->
  no_double_space (map f s) = no_double_space s.
Proof.
  induction s as [|a t IH]; intros H; simpl; auto.
  rewrite IH by (intros; apply H; simpl; auto).
  destruct t as [|b t']; simpl; auto.
  rewrite (H a), (H b) by (simpl; auto). reflexivity.
Qed.

Lemma allowed2_space c : allowed2 c = true -> isspace c = true -> c = c_space.
Proof.
  unfold allowed2, isspace. intros H1 H2.
  repeat rewrite Bool.orb_true_iff in H1. repeat rewrite Bool.orb_true_iff in H2.
  rewrite existsb_eqb_In in H1. simpl In in H1.
  repeat rewrite Bool.andb_true_iff in H1. repeat rewrite Bool.andb_true_iff in H2.
  repeat rewrite N.leb_le in H1. repeat rewrite N.leb_le in H2.
  repeat rewrite N.eqb_eq in H2.
  unfold c_space. lia.
Qed.

Ltac untitled_chars :=
  intros c Hc; simpl in Hc;
  repeat (destruct Hc as [<-|Hc]; [split; [reflexivity|vm_compute; intro; discriminate]|]);
  contradiction.

(** The names produced by both sanitizers are non-empty, start and end
    with a non-whitespace code point, never hold two whitespace code
    points in a row, and hold no whitespace but the plain space. Those of
    [app.py] hold none of the characters it replaces; those of
    [txt_to_csv.py] only letters, digits, Hangul syllables, space and
    [_-.()[]]. *)
Theorem sanitized_name_shape :
  (forall x, sanitize1 x <> [] /\ starts_ok (sanitize1 x) /\ ends_ok (sanitize1 x) /\
     no_double_space (sanitize1 x) = true /\
     forall c, In c (sanitize1 x) -> forbidden1 c = false /\ (isspace c = true -> c = c_space)) /\
  (forall x, sanitize2 x <> [] /\ starts_ok (sanitize2 x) /\ ends_ok (sanitize2 x) /\
     no_double_space (sanitize2 x) = true /\
     forall c, In c (sanitize2 x) -> allowed2 c = true /\ (isspace c = true -> c = c_space)).
Proof.
  split; intros x.
  - split; [apply sanitize1_nonempty|].
    unfold sanitize1. destruct (collapse false (map repl1 (strip x))) as [|d t] eqn:E.
    + split; [reflexivity|]. split; [reflexivity|]. split; [reflexivity|].
      untitled_chars.
    + rewrite <- E. split; [|split; [|split]].
      * apply collapse_starts, map_starts; [apply repl1_nonspace|apply strip_starts].
      * apply collapse_ends, map_ends; [apply repl1_nonspace|apply strip_ends].
      * apply collapse_no_double.
      * intros c Hc. split.
        -- destruct (collapse_incl _ _ _ Hc) as [Hin| ->]; [|reflexivity].
           apply in_map_iff in Hin. destruct Hin as [y [<- _]]. apply repl1_ok.
        -- apply (collapse_ws_space _ _ _ Hc).
  - split; [apply sanitize2_nonempty|].
    unfold sanitize2. destruct (map repl2 (collapse false (strip x))) as [|d t] eqn:E.
    + split; [reflexivity|]. split; [reflexivity|]. split; [reflexivity|].
      untitled_chars.
    + rewrite <- E. split; [|split; [|split]].
      * apply map_starts; [apply repl2_nonspace|]. apply collapse_starts, strip_starts.
      * apply map_ends; [apply repl2_nonspace|]. apply collapse_ends, strip_ends.
      * rewrite no_double_map; [apply collapse_no_double|].
        intros c Hc. destruct (isspace c) eqn:Ec.
        -- rewrite (collapse_ws_space _ _ _ Hc Ec). reflexivity.
        -- apply repl2_nonspace, Ec.
      * intros c Hc. assert (Ha : allowed2 c = true).
        { apply in_map_iff in Hc. destruct Hc as [y [<- _]]. apply repl2_ok. }
        split; [exact Ha|]. apply allowed2_space, Ha.
Qed.

(** ** Distinct names in [app.py] *)

(** [convert_csv_to_txt] never writes two archive entries with the same
    name: [ensure_unique] renames every clash, including clashes with
    names it generated itself. *)
Theorem app_names_distinct fc df rep :
  convert1 fc df = Some rep -> NoDup (map fst (entries1 rep)).
Proof.
  unfold convert1. destruct (loop1 fc 0 df [] 0) as [[es n]|] eqn:E; [|discriminate].
  intros H; injection H as <-. simpl.
  destruct (loop1_spec _ _ _ _ _ _ _ E) as [names [_ [-> _]]].
  apply unique_names1_fresh.
Qed.

(* ------------------------------------------------------------------ *)
(** ** The further properties at concrete inputs *)

Lemma default_separator_is_sniffed_witness :
  selected_sep (hd [] (sep_options (Some [9%N]))) = Some [9%N].
Proof.
  refine (proj1 (default_separator_is_sniffed (Some [9%N]) _)).
  right. exists [9%N]. split; [reflexivity|]. pick_in.
Defined.

Lemma blank_name_cell_untitled_witness :
  base_name2 (Some (lit "name")) 4 [(lit "name", CStr (lit "  ")); (lit "text", CStr (lit "hi"))]
  = untitled.
Proof.
  apply (blank_name_cell_untitled _ _ _ (CStr (lit "  "))); reflexivity.
Defined.

Lemma no_file_created_iff_witness :
  files_created1 {| entries1 := []; rows_processed1 := 2; files_created1 := 0 |} = 0 <->
  forall r, In r [[(lit "n", CNum (lit "1.0"))]; [(lit "t", CStr (lit "  "))]] ->
    first_string_cell (row_values r) = None.
Proof.
  apply (no_file_created_iff None [[(lit "n", CNum (lit "1.0"))]; [(lit "t", CStr (lit "  "))]]).
  reflexivity.
Defined.

Lemma counter_suffix_occurrence_witness :
  let o := {| text_mode_of := FirstNonEmpty; filename_col_of := Some (lit "name");
              prefix := []; suffix := [] |} in
  let df := [[(lit "name", CStr (lit "x"))]; [(lit "name", CStr (lit "x"))]] in
  nth_error (map fst (entries2 (convert2 o df))) 1 =
  Some (if count_stem [lit "x.txt"] (stem (lit "x.txt")) =? 0 then lit "x.txt"
        else numbered (stem (lit "x.txt")) (snd (splitext (lit "x.txt")))
               (S (count_stem [lit "x.txt"] (stem (lit "x.txt"))))).
Proof.
  intros o df.
  apply (counter_suffix_occurrence o df [lit "x.txt"] (lit "x.txt") []).
  reflexivity.
Defined.

Lemma app_names_txt_extension_witness :
  (exists X, lit ".txt_2" = X ++ lit ".txt") \/
  (exists X k, forallb is_dot X = true /\ lit ".txt_2" = numbered (X ++ lit ".txt") [] k).
Proof.
  apply (app_names_txt_extension (Some (lit "name"))
           [[(lit "name", CStr []); (lit "text", CStr (lit "a"))];
            [(lit "name", CStr []); (lit "text", CStr (lit "a"))]]
           {| entries1 := [(lit ".txt", lit "a"); (lit ".txt_2", lit "a")];
              rows_processed1 := 2; files_created1 := 2 |}).
  - reflexivity.
  - simpl; auto.
Defined.

Lemma app_names_distinct_witness :
  NoDup [lit "x.txt"; lit "x_2.txt"; lit "x_2_2.txt"].
Proof.
  apply (app_names_distinct (Some (lit "name"))
           [[(lit "name", CStr (lit "x"))]; [(lit "name", CStr (lit "x"))];
            [(lit "name", CStr (lit "x_2"))]]
           {| entries1 := [(lit "x.txt", lit "x"); (lit "x_2.txt", lit "x");
                           (lit "x_2_2.txt", lit "x_2")];
              rows_processed1 := 3; files_created1 := 3 |}).
  reflexivity.
Defined.

Lemma app_never_key_error_witness :
  convert1 (detect_filename_col [lit "FileName"; lit "text"])
           [[(lit "FileName", CMissing); (lit "text", CStr (lit "hi"))]] <> None.
Proof.
  apply app_never_key_error. intros r [<-|[]]. reflexivity.
Defined.
